(** * enscons helpers: requirement distillation, recursive globbing, version resolution

    A shallow embedding of [enscons/util.py] and [enscons/helpers.py].

    Conventions.
    - A Python [str] is a Rocq [string]; each character stands for the code
      point of the same number, so that Python's comparison of strings (by
      code points, lexicographic) is [String.le].
    - A Python value used as a condition is read through its truth value:
      a string is true when it is not empty, [None] is false.
    - A generator is the trace it produces when it is run to its end: the
      records it yields, in order, and how it stops (it returns or it
      raises). *)

From Stdlib Require Import Ascii String.
From stdpp Require Import base option list strings sorting gmap.

Open Scope string_scope.
Open Scope list_scope.

(** ** Python primitives *)

Module Py.

(** [bool(s)] for a string. *)
Definition truthy (s : string) : bool :=
  match s with
  | EmptyString => false
  | String _ _ => true
  end.

(** [bool(x)] for a value that is a string or [None]. *)
Definition truthy_opt (x : option string) : bool :=
  match x with
  | None => false
  | Some s => truthy s
  end.

(** [sep.join(l)]. *)
Fixpoint join (sep : string) (l : list string) : string :=
  match l with
  | [] => EmptyString
  | [x] => x
  | x :: l' => x +:+ sep +:+ join sep l'
  end.

(** [sorted(l)] on strings: the list in ascending order of [String.le]. *)
Definition sorted (l : list string) : list string :=
  merge_sort String.le l.

(** [s.split(":", 1)] when [":" in s]: the text before the first colon
    and the text after it; [None] when [s] has no colon. *)
Fixpoint split_colon (s : string) : option (string * string) :=
  match s with
  | EmptyString => None
  | String c s' =>
      if Ascii.eqb c ":"%char then Some (EmptyString, s')
      else match split_colon s' with
           | Some (a, b) => Some (String c a, b)
           | None => None
           end
  end.

(** [c in s] for a character [c]. *)
Fixpoint has_char (c : ascii) (s : string) : bool :=
  match s with
  | EmptyString => false
  | String d s' => Ascii.eqb c d || has_char c s'
  end.

(** [c.isspace()] on code points below 256: tab, line feed, vertical tab,
    form feed, carriage return, the four separators 28..31, space,
    next line (133) and no-break space (160). *)
Definition isspace (c : ascii) : bool :=
  let n := Ascii.N_of_ascii c in
  ((9 <=? n) && (n <=? 13) || (28 <=? n) && (n <=? 32)
   || (n =? 133) || (n =? 160))%N.

(** [s.lstrip()], [s.rstrip()], [s.strip()]. *)
Fixpoint lstrip (s : string) : string :=
  match s with
  | EmptyString => EmptyString
  | String c s' => if isspace c then lstrip s' else s
  end.

Fixpoint rstrip (s : string) : string :=
  match s with
  | EmptyString => EmptyString
  | String c s' =>
      match rstrip s' with
      | EmptyString => if isspace c then EmptyString else String c EmptyString
      | r => String c r
      end
  end.

Definition strip (s : string) : string := rstrip (lstrip s).

(** [sub in s] for strings. *)
Fixpoint startswith (s sub : string) : bool :=
  match sub, s with
  | EmptyString, _ => true
  | String a sub', String b s' => Ascii.eqb a b && startswith s' sub'
  | String _ _, EmptyString => false
  end.

Fixpoint contains (sub s : string) : bool :=
  startswith s sub ||
  match s with
  | EmptyString => false
  | String _ s' => contains sub s'
  end.

(** [any(l)]. *)
Definition any (l : list bool) : bool := existsb id l.

End Py.

(** ** util.py *)

(** The argument of [requires_to_requires_dist]: an object read through
    [getattr(requirement, "url", None)] and [requirement.specs]. A missing
    [url] attribute and [url = None] are both [None]. *)
Record SpecRequirement := {
  sr_url : option string;
  sr_specs : list (string * string)
}.

Definition requires_to_requires_dist (requirement : SpecRequirement) : string :=
  if Py.truthy_opt (sr_url requirement) then
    " @ " +:+ default EmptyString (sr_url requirement)
  else
    let requires_dist := map (fun '(op, ver) => op +:+ ver) (sr_specs requirement) in
    match requires_dist with
    | [] => EmptyString
    | _ => " (" +:+ Py.join "," (Py.sorted requires_dist) +:+ ")"
    end.

(** *** The [packaging] library

    [generate_requirements] builds on [packaging.requirements.Requirement],
    which is not part of this repository. Its objects are modelled by the
    record below; [marker] holds the text of the marker, whether the
    attribute is a [Marker] object (as parsed) or a string (as assigned by
    [generate_requirements]). The constructor [Requirement(text)], a parser
    of the PEP 508 grammar, is left abstract: it is a parameter of
    [generate_requirements], and [None] stands for its raising
    [InvalidRequirement]. *)
Record Requirement := {
  name : string;
  extras : list string;
  specifier : list (string * string);
  url : option string;
  marker : option string
}.

(** [new_req.marker = text]. *)
Definition set_marker (r : Requirement) (text : string) : Requirement :=
  {| name := name r; extras := extras r; specifier := specifier r;
     url := url r; marker := Some text |}.

(** [str(requirement)], after [Requirement._iter_parts] of [packaging]:
    the name, the extras in brackets, the specifier set (its specifiers
    sorted and joined by commas), the URL, the marker. *)
Definition Requirement_str (r : Requirement) : string :=
  name r
  +:+ (match extras r with
       | [] => EmptyString
       | _ => "[" +:+ Py.join "," (Py.sorted (extras r)) +:+ "]"
       end)
  +:+ (match specifier r with
       | [] => EmptyString
       | _ => Py.join "," (Py.sorted (map (fun '(op, ver) => op +:+ ver) (specifier r)))
       end)
  +:+ (if Py.truthy_opt (url r) then
         " @ " +:+ default EmptyString (url r)
         +:+ (if Py.truthy_opt (marker r) then " " else EmptyString)
       else EmptyString)
  +:+ (if Py.truthy_opt (marker r) then "; " +:+ default EmptyString (marker r)
       else EmptyString).

(** *** Generators

    A generator that yields values of type [Y] is the pair of what it has
    yielded and of how it stopped: with an exception, or with a value (the
    value of a block of the body; [tt] at the end of the generator). *)
Inductive exn :=
| InvalidRequirement (requirement_string : string).

Definition gen (Y A : Type) : Type := list Y * (exn + A).

Module Gen.

Definition ret {Y A} (a : A) : gen Y A := ([], inr a).

Definition yield {Y} (y : Y) : gen Y unit := ([y], inr tt).

Definition raise {Y A} (e : exn) : gen Y A := ([], inl e).

Definition bind {Y A B} (m : gen Y A) (f : A -> gen Y B) : gen Y B :=
  match m with
  | (ys, inl e) => (ys, inl e)
  | (ys, inr a) => let '(zs, r) := f a in (ys ++ zs, r)
  end.

(** [for x in l: body(x)]. *)
Fixpoint for_ {Y X} (l : list X) (body : X -> gen Y unit) : gen Y unit :=
  match l with
  | [] => ret tt
  | x :: l' => bind (body x) (fun _ => for_ l' body)
  end.

(** The records yielded, and the exception raised if any. *)
Definition yields {Y A} (m : gen Y A) : list Y := fst m.

Definition raised {Y A} (m : gen Y A) : option exn :=
  match snd m with
  | inl e => Some e
  | inr _ => None
  end.

(** [list(g)]: the caller that consumes the generator to its end receives
    the list of the records, or the exception and no list. *)
Definition to_list {Y} (m : gen Y unit) : exn + list Y :=
  match m with
  | (_, inl e) => inl e
  | (ys, inr _) => inr ys
  end.

End Gen.

Notation "x <- m ;; k" := (Gen.bind m (fun x => k))
  (at level 100, m at next level, right associativity).
Notation "m ;;; k" := (Gen.bind m (fun _ => k))
  (at level 100, right associativity).

Section generate_requirements.

(** [Requirement(dependency)]. *)
Variable Requirement_of : string -> option Requirement.

Definition Requirement_new (dependency : string) : gen (string * string) Requirement :=
  match Requirement_of dependency with
  | Some r => Gen.ret r
  | None => Gen.raise (InvalidRequirement dependency)
  end.

(** The mapping [extras_require] is a dictionary: its items come in
    insertion order. A key is a string or [None] ([extra or ""]). *)
Definition generate_requirements
    (extras_require : list (option string * list string)) : gen (string * string) unit :=
  Gen.for_ extras_require (fun '(extra, depends) =>
    let condition := EmptyString in
    let extra := default EmptyString extra in
    let '(extra, condition) :=
      match Py.split_colon extra with
      | Some (e, c) => (e, c)
      | None => (extra, condition)
      end in
    condition <-
      (if Py.truthy extra then
         Gen.yield ("Provides-Extra", extra) ;;;
         let condition :=
           if Py.truthy condition then "(" +:+ condition +:+ ") and "
           else condition in
         Gen.ret (condition +:+ "extra == '" +:+ extra +:+ "'")
       else Gen.ret condition) ;;
    Gen.for_ depends (fun dependency =>
      new_req <- Requirement_new dependency ;;
      let new_req :=
        if Py.truthy condition then
          match marker new_req with
          | Some m => set_marker new_req ("(" +:+ m +:+ ") and " +:+ condition)
          | None => set_marker new_req condition
          end
        else new_req in
      Gen.yield ("Requires-Dist", Requirement_str new_req))).

End generate_requirements.

(** ** helpers.py *)

(** *** The file system

    The directory [root] is a tree: the names of its plain files and its
    subdirectories with their names, both in the order in which the
    operating system lists them. Paths are lists of components, relative to
    [root]: [root] itself is [[]] and [os.path.join(p, n)] is [p ++ [n]]. *)
#[warnings="-register-all"]
Inductive tree :=
| Dir (files : list string) (subdirs : list (string * tree)).

Definition path := list string.

Definition files_of (t : tree) : list string :=
  match t with Dir files _ => files end.

Definition subdirs_of (t : tree) : list (string * tree) :=
  match t with Dir _ subdirs => subdirs end.

(** The subdirectory called [n] in a listing. *)
Fixpoint subdir (n : string) (l : list (string * tree)) : option tree :=
  match l with
  | [] => None
  | (m, t) :: l' => if String.eqb n m then Some t else subdir n l'
  end.

(** [os.path.isfile(p)]. *)
Fixpoint isfile (t : tree) (p : path) : bool :=
  match p with
  | [] => false
  | n :: p' =>
      match p' with
      | [] => bool_decide (n ∈ files_of t)
      | _ => match subdir n (subdirs_of t) with
             | Some t' => isfile t' p'
             | None => false
             end
      end
  end.

(** [os.walk(top)], top-down: the triple of a directory comes before the
    triples of its subdirectories, which are taken in listing order. *)
Fixpoint os_walk (top : path) (t : tree) : list (path * list string * list string) :=
  match t with
  | Dir files subdirs =>
      (top, map fst subdirs, files) ::
      (fix walk_subdirs (l : list (string * tree)) :=
         match l with
         | [] => []
         | (n, sub) :: l' => os_walk (top ++ [n]) sub ++ walk_subdirs l'
         end) subdirs
  end.

(** *** recursiveGlob *)

(** What [print] writes for a skipped directory: the pattern, the path and
    the reason, the second one with the list of expected files. *)
Inductive reason :=
| NameIgnored
| ExpectedNotFound (expectFile : list string).

Record notice := {
  notice_pattern : string;
  notice_path : path;
  notice_reason : reason
}.

(** The arguments as a caller may spell them. *)
Inductive expectFile_arg :=
| ExpectNone
| ExpectStr (s : string)
| ExpectList (l : list string).

Section recursiveGlob.

Context {Node : Type}.

(** [Glob(os.path.join(dir, pattern))] of SCons, for the directory [dir]. *)
Variable Glob : path -> string -> list Node.

(** The tree of [root]. *)
Variable fs : tree.

(** The result is the list [res] and the lines printed. *)
Definition recursiveGlob (pattern : string) (ignoreNames : option (list string))
    (expectFile : expectFile_arg) : list Node * list notice :=
  let ignoreNames :=
    match ignoreNames with None => ["__pycache__"] | Some l => l end in
  let expectFile :=
    match expectFile with
    | ExpectNone => ["__init__.py"]
    | ExpectStr s => [s]
    | ExpectList l => l
    end in
  let res := Glob [] pattern in
  fold_left (fun (st : list Node * list notice) '(oswroot, oswdirnames, _) =>
    fold_left (fun '(res, out) (oswdirname : string) =>
      if bool_decide (oswdirname ∈ ignoreNames) then
        (res, out ++ [{| notice_pattern := pattern;
                         notice_path := oswroot ++ [oswdirname];
                         notice_reason := NameIgnored |}])
      else
        let found :=
          Py.any (map (fun fn => isfile fs (oswroot ++ [oswdirname] ++ [fn])) expectFile) in
        if negb found && (0 <? length expectFile)%nat then
          (res, out ++ [{| notice_pattern := pattern;
                           notice_path := oswroot ++ [oswdirname];
                           notice_reason := ExpectedNotFound expectFile |}])
        else
          (res ++ Glob (oswroot ++ [oswdirname]) pattern, out))
      oswdirnames st)
    (os_walk [] fs) (res, []).

End recursiveGlob.

(** *** The rounds of the loops of recursiveGlob

    For the statements about [recursiveGlob]: the pairs of [oswroot] and
    [oswdirname] that the two loops go through, in order; the test that
    lets a round reach [res.extend]; the line that a round prints. *)
Definition visits (fs : tree) : list (path * string) :=
  flat_map (fun '(oswroot, oswdirnames, _) =>
              map (fun oswdirname : string => (oswroot, oswdirname)) oswdirnames)
    (os_walk [] fs).

Definition found_in (fs : tree) (expectFile : list string) (v : path * string) : bool :=
  Py.any (map (fun fn => isfile fs (fst v ++ [snd v] ++ [fn])) expectFile).

Definition keeps (fs : tree) (ignoreNames expectFile : list string)
    (v : path * string) : bool :=
  negb (bool_decide (snd v ∈ ignoreNames))
  && negb (negb (found_in fs expectFile v) && (0 <? length expectFile)%nat).

Definition notice_of (fs : tree) (pattern : string) (ignoreNames expectFile : list string)
    (v : path * string) : list notice :=
  if bool_decide (snd v ∈ ignoreNames) then
    [{| notice_pattern := pattern; notice_path := fst v ++ [snd v];
        notice_reason := NameIgnored |}]
  else if negb (found_in fs expectFile v) && (0 <? length expectFile)%nat then
    [{| notice_pattern := pattern; notice_path := fst v ++ [snd v];
        notice_reason := ExpectedNotFound expectFile |}]
  else [].

(** *** prolog *)

(** What [prolog] reads: the [project] table of [pyproject.toml] ([None]
    when it cannot be loaded; only its string-valued entries are kept), the
    text of [VERSION.txt] ([None] when [os.path.isfile] is false) and
    [os.environ]. *)
Record world := {
  pyproject_toml : option (gmap string string);
  VERSION_txt : option string;
  os_environ : gmap string string
}.

(** The second component of the result: the list [["VERSION.txt"]], or the
    node of [env.Textfile(target, source)], a file that the build writes
    with the text [source]. *)
Inductive version_file :=
| FileList (l : list string)
| Textfile (target : string) (source : string).

(** The construction variables that [prolog] passes to [Environment]: the
    tools by their names, the metadata, the tag, the copy of [os.environ]
    and the target. *)
Record Environment := {
  tools : list string;
  PACKAGE_METADATA : gmap string string;
  WHEEL_TAG : string;
  ENV : gmap string string;
  WHEEL_TARGET : string
}.

(** The removal of a left-over [build] directory is left out: it has no
    effect on what is returned. *)
Definition prolog (w : world) (os_environ_version_key : option string)
    (wheel_tag : string) (is_binary : option bool) : option (Environment * version_file) :=
  let is_binary :=
    match is_binary with
    | None => negb (Py.contains "-none-any" wheel_tag)
    | Some b => b
    end in
  match pyproject_toml w with
  | None => None
  | Some metadata =>
      let '(metadata, version_file) :=
        match VERSION_txt w with
        | Some text =>
            (<["version" := Py.strip text]> metadata, Some ["VERSION.txt"])
        | None =>
            let default_version := "99.99.99" in
            (<["version" :=
                 match os_environ_version_key with
                 | Some key => default default_version (os_environ w !! key)
                 | None => default_version
                 end]> metadata, None)
        end in
      let env := {| tools := ["default"; "packaging"; "textfile"; "enscons.generate"];
                    PACKAGE_METADATA := metadata;
                    WHEEL_TAG := wheel_tag;
                    ENV := os_environ w;
                    WHEEL_TARGET := if is_binary then "platlib" else "purelib" |} in
      let version_file :=
        match version_file with
        | None => Textfile "VERSION.txt" (metadata !!! "version")
        | Some l => FileList l
        end in
      Some (env, version_file)
  end.

(** ** Concrete collaborators for the examples

    The general statements below hold for every [Glob] and every parser of
    requirements. The examples run the code on concrete inputs, with the
    following stand-ins for the two external functions. *)

(** Matching of a file name against a pattern with [*] and [?]. *)
Fixpoint wildcard (p s : list ascii) : bool :=
  match p with
  | [] => match s with [] => true | _ => false end
  | c :: p' =>
      if Ascii.eqb c "*"%char then
        (fix star (s : list ascii) : bool :=
           wildcard p' s || match s with [] => false | _ :: s' => star s' end) s
      else
        match s with
        | [] => false
        | d :: s' => (Ascii.eqb c "?"%char || Ascii.eqb c d) && wildcard p' s'
        end
  end.

Definition fnmatch (pattern name : string) : bool :=
  wildcard (list_ascii_of_string pattern) (list_ascii_of_string name).

(** The directory at a path. *)
Fixpoint dir_at (t : tree) (p : path) : option tree :=
  match p with
  | [] => Some t
  | n :: p' =>
      match subdir n (subdirs_of t) with
      | Some t' => dir_at t' p'
      | None => None
      end
  end.

(** A [Glob] that returns the plain files of the directory that match the
    pattern, as paths, sorted by name. *)
Definition file_glob (fs : tree) (dir : path) (pattern : string) : list path :=
  match dir_at fs dir with
  | Some t => map (fun f => dir ++ [f]) (Py.sorted (filter (fun f => Is_true (fnmatch pattern f)) (files_of t)))
  | None => []
  end.

(** A parser given by the table of its results; a text that is not in the
    table is not a requirement. *)
Fixpoint parse_table (table : list (string * Requirement)) (text : string) : option Requirement :=
  match table with
  | [] => None
  | (s, r) :: table' => if String.eqb text s then Some r else parse_table table' text
  end.

(** What [packaging] makes of the requirement texts of the examples. The
    text of a parsed marker has its values between double quotes, whatever
    quotes the requirement text used. *)
Definition plain (n : string) (spec : list (string * string)) : Requirement :=
  {| name := n; extras := []; specifier := spec; url := None; marker := None |}.

Definition quoted (s : string) : string :=
  String "034"%char (s +:+ String "034"%char EmptyString).

Definition pywin32 : Requirement :=
  {| name := "pywin32"; extras := []; specifier := []; url := None;
     marker := Some ("os_name == " +:+ quoted "nt") |}.

Definition example_parser : string -> option Requirement :=
  parse_table
    [ ("six>=1.10", plain "six" [(">=", "1.10")]);
      ("black", plain "black" []);
      ("pytest>=6", plain "pytest" [(">=", "6")]);
      ("pywin32; os_name == 'nt'", pywin32) ].

(** A package with a cache directory that holds a package of its own. *)
Definition example_tree : tree :=
  Dir ["__init__.py"; "a.py"]
    [ ("__pycache__",
       Dir ["a.cpython-311.py"]
         [ ("vendored", Dir ["__init__.py"; "v.py"] []) ]);
      ("data",
       Dir ["readme.txt"]
         [ ("sub", Dir ["__init__.py"; "s.py"] []) ]) ].

(** ** Notions for the statements about generate_requirements

    The extra and the condition that an entry works with, read off its key
    as the loop body does, and the requirement that the body renders. *)

(** The name of the extra of a key: the text before the first colon. *)
Definition extra_name (key : option string) : string :=
  match Py.split_colon (default EmptyString key) with
  | Some (e, _) => e
  | None => default EmptyString key
  end.

(** The condition that the body applies to the requirements of the entry. *)
Definition entry_condition (key : option string) : string :=
  let '(extra, condition) :=
    match Py.split_colon (default EmptyString key) with
    | Some (e, c) => (e, c)
    | None => (default EmptyString key, EmptyString)
    end in
  if Py.truthy extra then
    (if Py.truthy condition then "(" +:+ condition +:+ ") and " else condition)
    +:+ "extra == '" +:+ extra +:+ "'"
  else condition.

(** The requirement after the assignment of its marker. *)
Definition with_condition (condition : string) (r : Requirement) : Requirement :=
  if Py.truthy condition then
    match marker r with
    | Some m => set_marker r ("(" +:+ m +:+ ") and " +:+ condition)
    | None => set_marker r condition
    end
  else r.

(** The records of an entry whose requirements are [reqs]. *)
Definition entry_records (key : option string) (reqs : list Requirement)
    : list (string * string) :=
  (if Py.truthy (extra_name key) then [("Provides-Extra", extra_name key)] else [])
  ++ map (fun r => ("Requires-Dist",
                    Requirement_str (with_condition (entry_condition key) r))) reqs.

(** The values of the records of one kind. *)
Definition values_of (kind : string) (records : list (string * string)) : list string :=
  map snd (List.filter (fun record => String.eqb (fst record) kind) records).

(** ** Notions for the statements about recursiveGlob *)

(** The lists that the first two lines of [recursiveGlob] make of their
    arguments. *)
Definition ignoreNames_of (ignoreNames : option (list string)) : list string :=
  match ignoreNames with None => ["__pycache__"] | Some l => l end.

Definition expectFile_of (expectFile : expectFile_arg) : list string :=
  match expectFile with
  | ExpectNone => ["__init__.py"]
  | ExpectStr s => [s]
  | ExpectList l => l
  end.

(** A tree as a file system has it: in every directory the names of the
    subdirectories are pairwise distinct. *)
Fixpoint well_formed (t : tree) : Prop :=
  match t with
  | Dir _ subdirs =>
      NoDup (map fst subdirs)
      /\ (fix all (l : list (string * tree)) : Prop :=
            match l with
            | [] => True
            | (_, sub) :: l' => well_formed sub /\ all l'
            end) subdirs
  end.

(** The rounds of a walk that starts at [top]. *)
Definition visits_from (top : path) (t : tree) : list (path * string) :=
  flat_map (fun '(oswroot, oswdirnames, _) =>
              map (fun oswdirname : string => (oswroot, oswdirname)) oswdirnames)
    (os_walk top t).

(** * Properties *)

(** ** Strings and sorting *)

Lemma truthy_true (s : string) : Py.truthy s = true <-> s <> EmptyString.
Proof. destruct s; simpl; split; congruence. Qed.

Lemma truthy_false (s : string) : Py.truthy s = false <-> s = EmptyString.
Proof. destruct s; simpl; split; congruence. Qed.

(** [sorted] returns an ascending list with the elements of its argument. *)
Lemma sorted_Sorted (l : list string) : Sorted String.le (Py.sorted l).
Proof. apply (Sorted_merge_sort String.le). Qed.

Lemma sorted_Permutation (l : list string) : Py.sorted l ≡ₚ l.
Proof. apply (merge_sort_Permutation String.le). Qed.

(** It is the only such list: whichever algorithm Python uses, and in
    whichever order the elements come, the result is the same. *)
Lemma sorted_unique (l l' : list string) :
  Sorted String.le l' -> l' ≡ₚ l -> l' = Py.sorted l.
Proof.
  intros Hs Hp. apply (Sorted_unique String.le); auto using sorted_Sorted.
  by rewrite sorted_Permutation.
Qed.

Lemma sorted_perm (l l' : list string) : l ≡ₚ l' -> Py.sorted l = Py.sorted l'.
Proof.
  intros Hp. apply sorted_unique; [apply sorted_Sorted|].
  by rewrite sorted_Permutation.
Qed.

Lemma string_app_assoc (a b c : string) : (a +:+ b) +:+ c = a +:+ (b +:+ c).
Proof.
  induction a as [|x a IH]; [done|].
  change (String x ((a +:+ b) +:+ c) = String x (a +:+ (b +:+ c))). by rewrite IH.
Qed.

(** A key [name:condition] is split at its first colon. *)
Lemma split_colon_app (name condition : string) :
  Py.has_char ":" name = false ->
  Py.split_colon (name +:+ ":" +:+ condition) = Some (name, condition).
Proof.
  induction name as [|x name IH]; [done|].
  cbn [Py.has_char]. intros [Hx Hn]%orb_false_elim.
  change (Py.split_colon (String x (name +:+ ":" +:+ condition))
          = Some (String x name, condition)).
  cbn [Py.split_colon]. rewrite Ascii.eqb_sym, Hx. by rewrite IH.
Qed.

Lemma split_colon_None (s : string) :
  Py.split_colon s = None <-> Py.has_char ":" s = false.
Proof.
  induction s as [|x s IH]; [done|].
  cbn [Py.split_colon Py.has_char]. rewrite (Ascii.eqb_sym ":" x).
  destruct (Ascii.eqb x ":"); [done|]. cbn [orb]. rewrite <- IH.
  destruct (Py.split_colon s) as [[a b]|]; split; congruence.
Qed.

(** ** requires_to_requires_dist *)

Lemma requires_to_requires_dist_no_url (u : option string) (specs : list (string * string)) :
  Py.truthy_opt u = false ->
  requires_to_requires_dist {| sr_url := u; sr_specs := specs |}
  = match specs with
    | [] => EmptyString
    | _ => " (" +:+ Py.join ","
                      (Py.sorted (map (fun '(op, ver) => op +:+ ver) specs)) +:+ ")"
    end.
Proof.
  intros Hu. unfold requires_to_requires_dist. simpl. rewrite Hu.
  by destruct specs.
Qed.

(** C5. Without a direct URL, the rendering of the specifiers does not
    depend on the order of the (operator, version) pairs: each pair is
    rendered as operator followed by version, the rendered strings are put
    in ascending lexicographic order, joined by commas and wrapped in one
    pair of parentheses after a space (an empty list of pairs gives the
    empty string). Both orders of [>=1.0] and [<2.0] give [ (<2.0,>=1.0)]. *)
Theorem render_specifier_order_independent
    (u : option string) (specs specs' : list (string * string)) :
  Py.truthy_opt u = false ->
  specs ≡ₚ specs' ->
  let rendered := map (fun '(op, ver) => op +:+ ver) specs in
  requires_to_requires_dist {| sr_url := u; sr_specs := specs |}
  = requires_to_requires_dist {| sr_url := u; sr_specs := specs' |}
  /\ requires_to_requires_dist {| sr_url := u; sr_specs := specs |}
     = match specs with
       | [] => EmptyString
       | _ => " (" +:+ Py.join "," (Py.sorted rendered) +:+ ")"
       end
  /\ Sorted String.le (Py.sorted rendered)
  /\ Py.sorted rendered ≡ₚ rendered
  /\ requires_to_requires_dist
       {| sr_url := u; sr_specs := [(">=", "1.0"); ("<", "2.0")] |} = " (<2.0,>=1.0)"
  /\ requires_to_requires_dist
       {| sr_url := u; sr_specs := [("<", "2.0"); (">=", "1.0")] |} = " (<2.0,>=1.0)".
Proof.
  intros Hu Hp rendered. repeat split.
  - rewrite !requires_to_requires_dist_no_url by done.
    rewrite (sorted_perm _ _ (Permutation_map (fun '(op, ver) => op +:+ ver) Hp)). destruct specs as [|s specs], specs' as [|s' specs']; try done.
    + by apply Permutation_nil_cons in Hp.
    + symmetry in Hp. by apply Permutation_nil_cons in Hp.
  - by apply requires_to_requires_dist_no_url.
  - apply sorted_Sorted.
  - apply sorted_Permutation.
  - by rewrite requires_to_requires_dist_no_url.
  - by rewrite requires_to_requires_dist_no_url.
Qed.

Lemma render_specifier_order_independent_witness :
  Py.truthy_opt None = false
  /\ [("~=", "3.1"); ("!=", "3.1.4")] ≡ₚ [("!=", "3.1.4"); ("~=", "3.1")]
  /\ requires_to_requires_dist
       {| sr_url := None; sr_specs := [("~=", "3.1"); ("!=", "3.1.4")] |}
     = requires_to_requires_dist
         {| sr_url := None; sr_specs := [("!=", "3.1.4"); ("~=", "3.1")] |}.
Proof.
  split; [reflexivity|]. split; [apply perm_swap|].
  apply (render_specifier_order_independent None
           [("~=", "3.1"); ("!=", "3.1.4")] [("!=", "3.1.4"); ("~=", "3.1")]);
    [reflexivity | apply perm_swap].
Defined.

(** C6. With a direct URL the rendering is [" @ "] followed by the URL,
    whatever the version specifiers of the requirement are: it is the
    rendering of the same requirement without any specifier, and no
    parenthesised list is produced. *)
Theorem render_specifier_url_wins (u : string) (specs : list (string * string)) :
  u <> EmptyString ->
  requires_to_requires_dist {| sr_url := Some u; sr_specs := specs |} = " @ " +:+ u
  /\ requires_to_requires_dist {| sr_url := Some u; sr_specs := specs |}
     = requires_to_requires_dist {| sr_url := Some u; sr_specs := [] |}.
Proof.
  intros Hu. apply truthy_true in Hu.
  unfold requires_to_requires_dist. simpl. by rewrite Hu.
Qed.

Lemma render_specifier_url_wins_witness :
  requires_to_requires_dist
    {| sr_url := Some "https://example.com/pkg.whl"; sr_specs := [(">=", "1.0")] |}
  = " @ https://example.com/pkg.whl".
Proof.
  apply (render_specifier_url_wins "https://example.com/pkg.whl" [(">=", "1.0")]).
  discriminate.
Defined.

(** ** Generators *)

Section gen_laws.

Context {Y : Type}.

Lemma bind_ret_l {A B} (a : A) (f : A -> gen Y B) : Gen.bind (Gen.ret a) f = f a.
Proof. unfold Gen.bind, Gen.ret. by destruct (f a). Qed.

Lemma bind_assoc {A B C} (m : gen Y A) (f : A -> gen Y B) (g : B -> gen Y C) :
  Gen.bind (Gen.bind m f) g = Gen.bind m (fun a => Gen.bind (f a) g).
Proof.
  destruct m as [ys [e|a]]; simpl; [done|].
  destruct (f a) as [zs [e|b]]; simpl; [done|].
  destruct (g b) as [ws r]. by rewrite app_assoc.
Qed.

Lemma for_app {X} (l1 l2 : list X) (body : X -> gen Y unit) :
  Gen.for_ (l1 ++ l2) body = Gen.bind (Gen.for_ l1 body) (fun _ => Gen.for_ l2 body).
Proof.
  induction l1 as [|x l1 IH].
  - symmetry. apply (bind_ret_l tt (fun _ => Gen.for_ l2 body)).
  - cbn [app Gen.for_]. by rewrite IH, bind_assoc.
Qed.

Lemma for_cons {X} (x : X) (l : list X) (body : X -> gen Y unit) :
  Gen.for_ (x :: l) body = Gen.bind (body x) (fun _ => Gen.for_ l body).
Proof. reflexivity. Qed.

Lemma yields_bind {A B} (m : gen Y A) (f : A -> gen Y B) (a : A) :
  snd m = inr a -> Gen.yields (Gen.bind m f) = Gen.yields m ++ Gen.yields (f a).
Proof.
  destruct m as [ys r]; simpl. intros ->. unfold Gen.yields. simpl.
  by destruct (f a).
Qed.

Lemma raised_bind {A B} (m : gen Y A) (f : A -> gen Y B) (a : A) :
  snd m = inr a -> Gen.raised (Gen.bind m f) = Gen.raised (f a).
Proof.
  destruct m as [ys r]; simpl. intros ->. unfold Gen.raised. simpl.
  by destruct (f a).
Qed.

Lemma raised_bind_raise {A B} (m : gen Y A) (f : A -> gen Y B) (e : exn) :
  Gen.raised m = Some e -> Gen.raised (Gen.bind m f) = Some e.
Proof.
  destruct m as [ys [e'|a]]; unfold Gen.raised; simpl; congruence.
Qed.

Lemma raised_None {A} (m : gen Y A) :
  Gen.raised m = None <-> exists a, snd m = inr a.
Proof.
  destruct m as [ys [e|a]]; unfold Gen.raised; simpl; split.
  - discriminate.
  - intros [a ?]. discriminate.
  - eauto.
  - done.
Qed.

(** A generator that raises hands no list to the caller who collects it;
    one that returns hands over everything it has yielded. *)
Lemma to_list_raised (m : gen Y unit) (e : exn) :
  Gen.raised m = Some e <-> Gen.to_list m = inl e.
Proof.
  destruct m as [ys [e'|[]]]; unfold Gen.raised; simpl; split; congruence.
Qed.

Lemma to_list_returned (m : gen Y unit) :
  Gen.raised m = None <-> Gen.to_list m = inr (Gen.yields m).
Proof.
  destruct m as [ys [e'|[]]]; unfold Gen.raised; simpl; split; congruence.
Qed.

(** A loop raises exactly when one of its rounds does, with the exception
    of the first round that raises; the rounds before it have all run. *)
Lemma for_raised {X} (l : list X) (body : X -> gen Y unit) (e : exn) :
  Gen.raised (Gen.for_ l body) = Some e <->
  exists l1 x l2, l = l1 ++ x :: l2
    /\ Forall (fun x' => Gen.raised (body x') = None) l1
    /\ Gen.raised (body x) = Some e.
Proof.
  induction l as [|x l IH]; cbn [Gen.for_].
  - split; [discriminate|]. intros (l1 & x & l2 & Hl & _). by destruct l1.
  - destruct (Gen.raised (body x)) as [e'|] eqn:Hx.
    + rewrite (raised_bind_raise _ _ _ Hx). split.
      * intros [= ->]. exists [], x, l. by repeat split.
      * intros (l1 & x' & l2 & Hl & Hok & He). destruct l1 as [|y l1].
        -- injection Hl as -> ->. congruence.
        -- injection Hl as -> ->. inversion Hok; congruence.
    + destruct (proj1 (raised_None _) Hx) as [[] Ha].
      rewrite (raised_bind _ _ _ Ha), IH. split.
      * intros (l1 & x' & l2 & -> & Hok & He).
        exists (x :: l1), x', l2. repeat split; auto.
      * intros (l1 & x' & l2 & Hl & Hok & He). destruct l1 as [|y l1].
        -- injection Hl as -> ->. congruence.
        -- injection Hl as -> ->. inversion Hok; subst.
           exists l1, x', l2. by repeat split.
Qed.

Lemma for_returned {X} (l : list X) (body : X -> gen Y unit) :
  Gen.raised (Gen.for_ l body) = None <->
  Forall (fun x => Gen.raised (body x) = None) l.
Proof.
  induction l as [|x l IH]; cbn [Gen.for_].
  - split; [constructor | done].
  - destruct (Gen.raised (body x)) as [e'|] eqn:Hx.
    + rewrite (raised_bind_raise _ _ _ Hx). split; [discriminate|].
      inversion 1; congruence.
    + destruct (proj1 (raised_None _) Hx) as [[] Ha].
      rewrite (raised_bind _ _ _ Ha), IH. split.
      * by constructor.
      * by inversion 1.
Qed.

End gen_laws.

(** ** generate_requirements *)

Section generate_requirements_props.

Variable Requirement_of : string -> option Requirement.

(** The round of the inner loop, for the condition of the entry. *)
Local Abbreviation requires_dist_round condition :=
  (fun dependency : string =>
     new_req <- Requirement_new Requirement_of dependency ;;
     let new_req :=
       if Py.truthy condition then
         match marker new_req with
         | Some m => set_marker new_req ("(" +:+ m +:+ ") and " +:+ condition)
         | None => set_marker new_req condition
         end
       else new_req in
     Gen.yield ("Requires-Dist", Requirement_str new_req)).

(** The extra and the condition of a key, and the clause built from them. *)
Local Abbreviation extra_condition key :=
  (match Py.split_colon (default EmptyString key) with
   | Some (e, c) => (e, c)
   | None => (default EmptyString key, EmptyString)
   end).

Local Abbreviation clause_of extra condition :=
  (if Py.truthy extra then
     (if Py.truthy condition then "(" +:+ condition +:+ ") and " else condition)
     +:+ "extra == '" +:+ extra +:+ "'"
   else condition)%string.

Lemma generate_requirements_app (m1 m2 : list (option string * list string)) :
  generate_requirements Requirement_of (m1 ++ m2)
  = (generate_requirements Requirement_of m1 ;;; generate_requirements Requirement_of m2).
Proof. apply for_app. Qed.

Lemma generate_requirements_nil :
  generate_requirements Requirement_of [] = ([], inr tt).
Proof. reflexivity. Qed.

(** One entry: the [Provides-Extra] record if the extra has a name, then
    the inner loop with the clause of the entry. *)
Lemma generate_requirements_entry (key : option string) (depends : list string) :
  generate_requirements Requirement_of [(key, depends)]
  = ((if Py.truthy (fst (extra_condition key))
      then Gen.yield ("Provides-Extra", fst (extra_condition key))
      else Gen.ret tt) ;;;
     Gen.for_ depends
       (requires_dist_round
          (clause_of (fst (extra_condition key)) (snd (extra_condition key))))).
Proof.
  unfold generate_requirements. cbn [Gen.for_].
  destruct (Py.split_colon (default EmptyString key)) as [[e c]|];
    cbn [fst snd].
  - destruct (Py.truthy e).
    + rewrite !bind_assoc. cbn.
      destruct (Gen.for_ depends _) as [ys [x|[]]]; cbn; by rewrite ?app_nil_r.
    + rewrite !bind_ret_l. 
      destruct (Gen.for_ depends _) as [ys [x|[]]]; cbn; by rewrite ?app_nil_r.
  - destruct (Py.truthy (default EmptyString key)).
    + rewrite !bind_assoc. cbn.
      destruct (Gen.for_ depends _) as [ys [x|[]]]; cbn; by rewrite ?app_nil_r.
    + rewrite !bind_ret_l.
      destruct (Gen.for_ depends _) as [ys [x|[]]]; cbn; by rewrite ?app_nil_r.
Qed.

Lemma round_raised (condition dependency : string) :
  Gen.raised (requires_dist_round condition dependency)
  = match Requirement_of dependency with
    | Some _ => None
    | None => Some (InvalidRequirement dependency)
    end.
Proof.
  unfold Requirement_new. by destruct (Requirement_of dependency).
Qed.

(** The inner loop on requirement texts that all parse. *)
Lemma rounds_returned (condition : string) (depends : list string)
    (reqs : list Requirement) :
  Forall2 (fun d r => Requirement_of d = Some r) depends reqs ->
  Gen.for_ depends (requires_dist_round condition)
  = (map (fun r =>
            ("Requires-Dist",
             Requirement_str
               (if Py.truthy condition then
                  match marker r with
                  | Some m => set_marker r ("(" +:+ m +:+ ") and " +:+ condition)
                  | None => set_marker r condition
                  end
                else r))) reqs,
     inr tt).
Proof.
  induction 1 as [|d r depends reqs Hd _ IH]; [done|].
  rewrite for_cons, IH. unfold Requirement_new. by rewrite Hd.
Qed.

(** The inner loop raises at the first text that does not parse. *)
Lemma rounds_raised (condition : string) (depends : list string) (e : exn) :
  Gen.raised (Gen.for_ depends (requires_dist_round condition)) = Some e <->
  exists l1 d l2, depends = l1 ++ d :: l2
    /\ Forall (fun d' => is_Some (Requirement_of d')) l1
    /\ Requirement_of d = None
    /\ e = InvalidRequirement d.
Proof.
  rewrite for_raised. split.
  - intros (l1 & d & l2 & -> & Hok & He). exists l1, d, l2.
    rewrite round_raised in He. split; [done|]. split.
    + eapply Forall_impl; [exact Hok|]. intros d'. cbv beta.
      rewrite round_raised. destruct (Requirement_of d'); [eauto | discriminate].
    + destruct (Requirement_of d); [discriminate|]. by injection He as <-.
  - intros (l1 & d & l2 & -> & Hok & Hd & ->). exists l1, d, l2.
    split; [done|]. split.
    + eapply Forall_impl; [exact Hok|]. intros d' [r Hr]. cbv beta.
      by rewrite round_raised, Hr.
    + by rewrite round_raised, Hd.
Qed.

Lemma rounds_not_raised (condition : string) (depends : list string) :
  Gen.raised (Gen.for_ depends (requires_dist_round condition)) = None <->
  Forall (fun d => is_Some (Requirement_of d)) depends.
Proof.
  rewrite for_returned. apply Forall_iff. intros d.
  rewrite round_raised. destruct (Requirement_of d).
  - split; eauto.
  - split; [discriminate | by intros [? ?]].
Qed.

(** The exception of one entry is the exception of its inner loop. *)
Lemma entry_raised_rounds (key : option string) (depends : list string) :
  exists condition,
    Gen.raised (generate_requirements Requirement_of [(key, depends)])
    = Gen.raised (Gen.for_ depends (requires_dist_round condition)).
Proof.
  rewrite generate_requirements_entry.
  exists (clause_of (fst (extra_condition key)) (snd (extra_condition key))).
  by destruct (Py.truthy (fst (extra_condition key)));
    rewrite (raised_bind _ _ tt).
Qed.

Lemma entry_raised (key : option string) (depends : list string) (e : exn) :
  Gen.raised (generate_requirements Requirement_of [(key, depends)]) = Some e <->
  exists l1 d l2, depends = l1 ++ d :: l2
    /\ Forall (fun d' => is_Some (Requirement_of d')) l1
    /\ Requirement_of d = None
    /\ e = InvalidRequirement d.
Proof.
  destruct (entry_raised_rounds key depends) as [c ->]. apply rounds_raised.
Qed.

Lemma entry_not_raised (key : option string) (depends : list string) :
  Gen.raised (generate_requirements Requirement_of [(key, depends)]) = None <->
  Forall (fun d => is_Some (Requirement_of d)) depends.
Proof.
  destruct (entry_raised_rounds key depends) as [c ->]. apply rounds_not_raised.
Qed.

Lemma generate_requirements_cons (x : option string * list string)
    (m : list (option string * list string)) :
  generate_requirements Requirement_of (x :: m)
  = (generate_requirements Requirement_of [x] ;;; generate_requirements Requirement_of m).
Proof. apply (generate_requirements_app [x] m). Qed.

(** The generator returns when every requirement text parses. *)
Lemma generate_requirements_returns (m : list (option string * list string)) :
  Gen.raised (generate_requirements Requirement_of m) = None <->
  Forall (fun x => Forall (fun d => is_Some (Requirement_of d)) (snd x)) m.
Proof.
  induction m as [|[key depends] m IH]; [by split; [constructor|]|].
  rewrite generate_requirements_cons.
  destruct (Gen.raised (generate_requirements Requirement_of [(key, depends)]))
    as [e|] eqn:He.
  - rewrite (raised_bind_raise _ _ _ He). split; [discriminate|].
    inversion 1 as [|? ? Hd _]; subst. cbn [snd] in Hd.
    apply (proj2 (entry_not_raised key depends)) in Hd. congruence.
  - destruct (proj1 (raised_None _) He) as [[] Ha].
    rewrite (raised_bind _ _ _ Ha), IH. apply entry_not_raised in He. split.
    + by constructor.
    + by inversion 1.
Qed.

(** When a requirement text of the mapping is not a valid requirement,
    the generator ends with the exception [InvalidRequirement] of an
    offending text of the mapping, it never returns, and the caller that
    collects its records receives that exception in place of a list of
    records. What has been yielded by then is the matter of
    [invalid_requirement_ends_the_records] below. *)
Theorem invalid_requirement_is_fatal (m : list (option string * list string)) :
  (exists key depends d,
      (key, depends) ∈ m /\ d ∈ depends /\ Requirement_of d = None) ->
  exists d,
    Requirement_of d = None
    /\ (exists key depends, (key, depends) ∈ m /\ d ∈ depends)
    /\ Gen.raised (generate_requirements Requirement_of m) = Some (InvalidRequirement d)
    /\ Gen.to_list (generate_requirements Requirement_of m) = inl (InvalidRequirement d)
    /\ (forall records,
          Gen.to_list (generate_requirements Requirement_of m) <> inr records).
Proof.
  intros Hbad.
  assert (exists d, Requirement_of d = None
            /\ (exists key depends, (key, depends) ∈ m /\ d ∈ depends)
            /\ Gen.raised (generate_requirements Requirement_of m)
               = Some (InvalidRequirement d)) as (d & Hd & Hin & Hr).
  { induction m as [|[key depends] m IH].
    - destruct Hbad as (? & ? & ? & H & _). by apply elem_of_nil in H.
    - rewrite generate_requirements_cons.
      destruct (Gen.raised (generate_requirements Requirement_of [(key, depends)]))
        as [e|] eqn:He.
      + rewrite (raised_bind_raise _ _ _ He).
        apply entry_raised in He as (l1 & d & l2 & -> & _ & Hd & ->).
        exists d. split; [done|]. split; [|done].
        exists key, (l1 ++ d :: l2). split; [apply list_elem_of_here|].
        apply elem_of_app. right. apply list_elem_of_here.
      + destruct (proj1 (raised_None _) He) as [[] Ha].
        rewrite (raised_bind _ _ _ Ha). apply entry_not_raised in He.
        destruct IH as (d & Hd & (k & ds & Hk & Hds) & Hr).
        * destruct Hbad as (k & ds & d & Hk & Hds & Hd).
          apply elem_of_cons in Hk as [[= -> ->]|Hk].
          -- rewrite Forall_forall in He. destruct (He d Hds) as [r Hr]. congruence.
          -- eauto 6.
        * exists d. split; [done|]. split; [|done].
          exists k, ds. split; [by apply list_elem_of_further | done]. }
  exists d. split; [done|]. split; [done|]. split; [done|].
  apply to_list_raised in Hr. split; [done|]. intros records. by rewrite Hr.
Qed.

(** The records of an entry that returns, among those of the mapping. *)
Lemma yields_in_context (pre post : list (option string * list string))
    (x : option string * list string) (records : list (string * string)) :
  Gen.raised (generate_requirements Requirement_of pre) = None ->
  generate_requirements Requirement_of [x] = (records, inr tt) ->
  Gen.yields (generate_requirements Requirement_of (pre ++ x :: post))
  = Gen.yields (generate_requirements Requirement_of pre)
    ++ records ++ Gen.yields (generate_requirements Requirement_of post).
Proof.
  intros Hpre Hx. apply raised_None in Hpre as [[] Hpre].
  rewrite generate_requirements_app, (yields_bind _ _ _ Hpre).
  rewrite generate_requirements_cons, Hx. by rewrite (yields_bind _ _ tt).
Qed.

(** C3. An entry whose key is [name:condition], with a name that is not
    empty, yields [Provides-Extra] for the name, then one [Requires-Dist]
    for each requirement of the entry, with the marker
    [(condition) and extra == 'name'], after the existing marker in
    parentheses and [and] when the requirement has one. For the key
    [test:sys_platform=='linux'] and the requirement [pytest>=6], which has
    no marker, the marker is [(sys_platform=='linux') and extra == 'test']. *)
Theorem named_extra_with_condition
    (pre post : list (option string * list string)) (name condition : string)
    (depends : list string) (reqs : list Requirement) :
  name <> EmptyString ->
  Py.has_char ":" name = false ->
  condition <> EmptyString ->
  Forall2 (fun d r => Requirement_of d = Some r) depends reqs ->
  Gen.raised (generate_requirements Requirement_of pre) = None ->
  let clause := "(" +:+ condition +:+ ") and extra == '" +:+ name +:+ "'" in
  let combined r :=
    match marker r with
    | Some m => "(" +:+ m +:+ ") and " +:+ clause
    | None => clause
    end in
  let records :=
    ("Provides-Extra", name)
    :: map (fun r => ("Requires-Dist", Requirement_str (set_marker r (combined r)))) reqs in
  generate_requirements Requirement_of [(Some (name +:+ ":" +:+ condition), depends)]
  = (records, inr tt)
  /\ Gen.yields (generate_requirements Requirement_of
                   (pre ++ (Some (name +:+ ":" +:+ condition), depends) :: post))
     = Gen.yields (generate_requirements Requirement_of pre)
       ++ records ++ Gen.yields (generate_requirements Requirement_of post)
  /\ (forall r,
        Requirement_of "pytest>=6" = Some r -> marker r = None ->
        generate_requirements Requirement_of
          [(Some "test:sys_platform=='linux'", ["pytest>=6"])]
        = ([("Provides-Extra", "test");
            ("Requires-Dist",
             Requirement_str
               (set_marker r "(sys_platform=='linux') and extra == 'test'"))],
           inr tt)).
Proof.
  intros Hname Hcolon Hcond Hreqs Hpre clause combined records.
  assert (Hentry :
    generate_requirements Requirement_of [(Some (name +:+ ":" +:+ condition), depends)]
    = (records, inr tt)).
  { rewrite generate_requirements_entry. cbn [from_option id].
    rewrite (split_colon_app _ _ Hcolon). cbn [fst snd].
    apply truthy_true in Hname, Hcond. rewrite Hname, Hcond.
    rewrite (rounds_returned _ _ _ Hreqs). unfold records. cbn.
    do 2 f_equal. apply map_ext. intros r. do 2 f_equal.
    assert (Hclause : ("(" +:+ condition +:+ ") and ") +:+ "extra == '" +:+ name +:+ "'"
                      = clause).
    { unfold clause. by rewrite !string_app_assoc. }
    rewrite Hclause.
    assert (Ht : Py.truthy clause = true) by done. rewrite Ht.
    unfold combined. by destruct (marker r). }
  split; [done|]. split; [by apply yields_in_context|].
  intros r Hr Hm. unfold generate_requirements, Requirement_new. cbn.
  rewrite Hr. cbn. by rewrite Hm.
Qed.

(** C9. An entry whose key is a colon followed by a condition yields no
    [Provides-Extra]: it yields one [Requires-Dist] for each of its
    requirements, with the condition as it is written (no parentheses
    around it, no [extra ==] clause) for marker, after the existing marker
    in parentheses and [and] when the requirement has one. *)
Theorem unnamed_extra_with_condition
    (pre post : list (option string * list string)) (condition : string)
    (depends : list string) (reqs : list Requirement) :
  condition <> EmptyString ->
  Forall2 (fun d r => Requirement_of d = Some r) depends reqs ->
  Gen.raised (generate_requirements Requirement_of pre) = None ->
  let combined r :=
    match marker r with
    | Some m => "(" +:+ m +:+ ") and " +:+ condition
    | None => condition
    end in
  let records :=
    map (fun r => ("Requires-Dist", Requirement_str (set_marker r (combined r)))) reqs in
  generate_requirements Requirement_of [(Some (":" +:+ condition), depends)]
  = (records, inr tt)
  /\ Forall (fun record => fst record = "Requires-Dist") records
  /\ Gen.yields (generate_requirements Requirement_of
                   (pre ++ (Some (":" +:+ condition), depends) :: post))
     = Gen.yields (generate_requirements Requirement_of pre)
       ++ records ++ Gen.yields (generate_requirements Requirement_of post).
Proof.
  intros Hcond Hreqs Hpre combined records.
  assert (Hentry :
    generate_requirements Requirement_of [(Some (":" +:+ condition), depends)]
    = (records, inr tt)).
  { rewrite generate_requirements_entry. cbn [from_option id].
    change (":" +:+ condition) with (EmptyString +:+ ":" +:+ condition).
    rewrite (split_colon_app EmptyString condition eq_refl). cbn [fst snd Py.truthy].
    rewrite bind_ret_l, (rounds_returned _ _ _ Hreqs). unfold records.
    f_equal. apply map_ext. intros r. do 2 f_equal.
    apply truthy_true in Hcond. rewrite Hcond.
    unfold combined. by destruct (marker r). }
  split; [done|]. split; [|by apply yields_in_context].
  unfold records. apply Forall_map. by apply Forall_true.
Qed.

(** C2, as the code has it. For the mapping with the base requirement
    [six>=1.10] and the extra [dev] with the requirement [black], the
    records are [Requires-Dist: six>=1.10], [Provides-Extra: dev] and
    [Requires-Dist: black; extra == 'dev'], in that order, and the
    generator returns: the specifier of [six] is rendered by [str] of the
    requirement, without a space and without parentheses. *)
Theorem base_and_dev_records :
  Requirement_of "six>=1.10" = Some (plain "six" [(">=", "1.10")]) ->
  Requirement_of "black" = Some (plain "black" []) ->
  generate_requirements Requirement_of
    [(Some EmptyString, ["six>=1.10"]); (Some "dev", ["black"])]
  = ([("Requires-Dist", "six>=1.10");
      ("Provides-Extra", "dev");
      ("Requires-Dist", "black; extra == 'dev'")],
     inr tt).
Proof.
  intros Hsix Hblack. unfold generate_requirements, Requirement_new. cbn.
  rewrite Hsix. cbn. by rewrite Hblack.
Qed.

End generate_requirements_props.

(** *** On concrete mappings *)

Lemma named_extra_with_condition_witness :
  generate_requirements example_parser
    [(Some "test:sys_platform=='linux'", ["pytest>=6"; "pywin32; os_name == 'nt'"])]
  = ([("Provides-Extra", "test");
      ("Requires-Dist", "pytest>=6; (sys_platform=='linux') and extra == 'test'");
      ("Requires-Dist",
       "pywin32; (os_name == " +:+ quoted "nt"
       +:+ ") and (sys_platform=='linux') and extra == 'test'")],
     inr tt).
Proof.
  apply (proj1 (named_extra_with_condition example_parser [] []
                  "test" "sys_platform=='linux'"
                  ["pytest>=6"; "pywin32; os_name == 'nt'"]
                  [plain "pytest" [(">=", "6")]; pywin32]
                  ltac:(discriminate) eq_refl ltac:(discriminate)
                  ltac:(repeat constructor) eq_refl)).
Defined.

Lemma unnamed_extra_with_condition_witness :
  generate_requirements example_parser
    [(Some ":sys_platform=='win32'", ["black"; "pywin32; os_name == 'nt'"])]
  = ([("Requires-Dist", "black; sys_platform=='win32'");
      ("Requires-Dist",
       "pywin32; (os_name == " +:+ quoted "nt" +:+ ") and sys_platform=='win32'")],
     inr tt).
Proof.
  apply (proj1 (unnamed_extra_with_condition example_parser [] []
                  "sys_platform=='win32'"
                  ["black"; "pywin32; os_name == 'nt'"]
                  [plain "black" []; pywin32]
                  ltac:(discriminate) ltac:(repeat constructor) eq_refl)).
Defined.

Lemma invalid_requirement_is_fatal_witness :
  exists d,
    Gen.to_list (generate_requirements example_parser
                   [(Some "dev", ["black"; "not a requirement"; "six>=1.10"])])
    = inl (InvalidRequirement d).
Proof.
  destruct (invalid_requirement_is_fatal example_parser
              [(Some "dev", ["black"; "not a requirement"; "six>=1.10"])])
    as (d & _ & _ & _ & H & _).
  - exists (Some "dev"), ["black"; "not a requirement"; "six>=1.10"], "not a requirement".
    split; [apply list_elem_of_here|].
    split; [apply list_elem_of_further, list_elem_of_here | reflexivity].
  - exists d. exact H.
Defined.

(** The records yielded before the offending text are followed by the
    exception, never by a normal end of the generator. *)
Example records_before_the_exception :
  generate_requirements example_parser
    [(Some "dev", ["black"; "not a requirement"; "six>=1.10"])]
  = ([("Provides-Extra", "dev"); ("Requires-Dist", "black; extra == 'dev'")],
     inl (InvalidRequirement "not a requirement")).
Proof. reflexivity. Qed.

Lemma base_and_dev_records_witness :
  generate_requirements example_parser
    [(Some EmptyString, ["six>=1.10"]); (Some "dev", ["black"])]
  = ([("Requires-Dist", "six>=1.10");
      ("Provides-Extra", "dev");
      ("Requires-Dist", "black; extra == 'dev'")],
     inr tt).
Proof. apply (base_and_dev_records example_parser); reflexivity. Defined.

(** C2 as stated fails: [generate_requirements] renders a requirement with
    [str], which writes [six>=1.10]; [requires_to_requires_dist], which
    would write [ (>=1.10)], is not called. *)
Lemma six_has_no_parentheses :
  Gen.yields (generate_requirements example_parser
                [(Some EmptyString, ["six>=1.10"]); (Some "dev", ["black"])])
  <> [("Requires-Dist", "six (>=1.10)");
      ("Provides-Extra", "dev");
      ("Requires-Dist", "black; extra == 'dev'")].
Proof. vm_compute. discriminate. Qed.

(** ** The file system and the walk *)

Lemma os_walk_eq (top : path) (files : list string) (subdirs : list (string * tree)) :
  os_walk top (Dir files subdirs)
  = (top, map fst subdirs, files)
    :: flat_map (fun x => os_walk (top ++ [fst x]) (snd x)) subdirs.
Proof.
  cbn [os_walk]. f_equal.
  induction subdirs as [|[n sub] l IH]; [done|]. cbn [flat_map fst snd]. by rewrite IH.
Qed.

Lemma subdir_Some (n : string) (l : list (string * tree)) (t : tree) :
  subdir n l = Some t -> (n, t) ∈ l.
Proof.
  induction l as [|[m t'] l IH]; [done|]. cbn [subdir].
  destruct (String.eqb_spec n m) as [->|_].
  - intros [= ->]. apply list_elem_of_here.
  - intros H. apply list_elem_of_further. auto.
Qed.

Lemma dir_at_app (t : tree) (p : path) (d : string) (t' : tree) :
  dir_at t (p ++ [d]) = Some t' <->
  exists t0, dir_at t p = Some t0 /\ subdir d (subdirs_of t0) = Some t'.
Proof.
  revert t. induction p as [|n p IH]; intros t; cbn [app dir_at].
  - split.
    + destruct (subdir d (subdirs_of t)) as [t1|] eqn:Hd; [|discriminate].
      intros [= ->]. eauto.
    + intros (t0 & [= <-] & Hd). by rewrite Hd.
  - destruct (subdir n (subdirs_of t)) as [t1|]; [apply IH|].
    split; [discriminate | by intros (? & ? & _)].
Qed.

(** The walk reaches every directory of the tree: nothing is pruned. *)
Lemma os_walk_reaches (t : tree) (top p : path) (t' : tree) :
  dir_at t p = Some t' ->
  (top ++ p, map fst (subdirs_of t'), files_of t') ∈ os_walk top t.
Proof.
  revert t top. induction p as [|n p IH]; intros [files subdirs] top; cbn [dir_at].
  - intros [= <-]. rewrite app_nil_r, os_walk_eq. apply list_elem_of_here.
  - cbn [subdirs_of]. destruct (subdir n subdirs) as [t1|] eqn:Hn; [|discriminate].
    intros Hp. rewrite os_walk_eq. apply list_elem_of_further.
    apply list_elem_of_In, in_flat_map. exists (n, t1). split.
    + by apply list_elem_of_In, subdir_Some.
    + apply list_elem_of_In. cbn [fst snd].
      replace (top ++ n :: p) with ((top ++ [n]) ++ p) by by rewrite <- app_assoc.
      by apply IH.
Qed.

Lemma subdir_name (n : string) (l : list (string * tree)) (t : tree) :
  subdir n l = Some t -> n ∈ map fst l.
Proof.
  intros H%subdir_Some. apply list_elem_of_In, in_map_iff. exists (n, t).
  split; [done | by apply list_elem_of_In].
Qed.

(** Every directory below [root] is the directory of one round. *)
Lemma every_directory_is_visited (fs : tree) (r : path) (d : string) (t : tree) :
  dir_at fs (r ++ [d]) = Some t -> (r, d) ∈ visits fs.
Proof.
  intros (t0 & Hr & Hd)%dir_at_app. unfold visits.
  apply list_elem_of_In, in_flat_map.
  exists (r, map fst (subdirs_of t0), files_of t0). split.
  - apply list_elem_of_In. apply (os_walk_reaches fs [] r t0 Hr).
  - apply in_map_iff. exists d. split; [done|].
    by apply list_elem_of_In, (subdir_name _ _ t).
Qed.

(** [os.path.isfile] of a name in a directory looks at the plain files of
    that directory. *)
Lemma isfile_dir_at (fs : tree) (p : path) (fn : string) (t : tree) :
  dir_at fs p = Some t -> isfile fs (p ++ [fn]) = bool_decide (fn ∈ files_of t).
Proof.
  revert fs. induction p as [|n p IH]; intros fs; cbn [dir_at app].
  - by intros [= ->].
  - destruct (subdir n (subdirs_of fs)) as [t1|] eqn:Hn; [|discriminate].
    intros Hp. cbn [isfile]. rewrite Hn, <- (IH _ Hp). by destruct p.
Qed.

Lemma found_in_dir_at (fs : tree) (expectFile : list string) (r : path) (d : string)
    (t : tree) :
  dir_at fs (r ++ [d]) = Some t ->
  found_in fs expectFile (r, d) = true <->
  exists fn, fn ∈ expectFile /\ fn ∈ files_of t.
Proof.
  intros Ht. unfold found_in, Py.any. cbn [fst snd]. rewrite existsb_exists. split.
  - intros (b & (fn & <- & Hfn)%in_map_iff & Hb). exists fn.
    split; [by apply list_elem_of_In|].
    rewrite app_assoc, (isfile_dir_at _ _ _ _ Ht) in Hb. by apply bool_decide_eq_true in Hb.
  - intros (fn & Hfn & Hin). exists true. split; [|done].
    apply in_map_iff. exists fn. split; [|by apply list_elem_of_In].
    rewrite app_assoc, (isfile_dir_at _ _ _ _ Ht). by apply bool_decide_eq_true.
Qed.

(** The test of a round, for the directory of the round: its name is not
    ignored, and one of the expected files is among its plain files unless
    no file is expected. *)
Lemma keeps_dir_at (fs : tree) (ignoreNames expectFile : list string)
    (r : path) (d : string) (t : tree) :
  dir_at fs (r ++ [d]) = Some t ->
  keeps fs ignoreNames expectFile (r, d) = true <->
  (d ∉ ignoreNames)
  /\ (expectFile = [] \/ exists fn, fn ∈ expectFile /\ fn ∈ files_of t).
Proof.
  intros Ht. unfold keeps. cbn [snd].
  rewrite andb_true_iff, !negb_true_iff, andb_false_iff, negb_false_iff.
  rewrite bool_decide_eq_false, (found_in_dir_at _ _ _ _ _ Ht), Nat.ltb_ge.
  split.
  - intros [Hd [H|H]]; (split; [done|]).
    + by right.
    + left. destruct expectFile; [done | cbn in H; lia].
  - intros [Hd [->|H]]; (split; [done|]).
    + right. cbn. lia.
    + by left.
Qed.

(** ** recursiveGlob *)

Section recursiveGlob_props.

Context {Node : Type}.
Variable Glob : path -> string -> list Node.
Variable fs : tree.

(** The body of the inner loop. *)
Local Abbreviation round pattern ignoreNames expectFile oswroot :=
  (fun '(res, out) (oswdirname : string) =>
      if bool_decide (oswdirname ∈ ignoreNames) then
        (res, out ++ [{| notice_pattern := pattern;
                         notice_path := oswroot ++ [oswdirname];
                         notice_reason := NameIgnored |}])
      else
        let found :=
          Py.any (map (fun fn => isfile fs (oswroot ++ [oswdirname] ++ [fn])) expectFile) in
        if negb found && Nat.ltb 0 (length expectFile) then
          (res, out ++ [{| notice_pattern := pattern;
                           notice_path := oswroot ++ [oswdirname];
                           notice_reason := ExpectedNotFound expectFile |}])
        else
          (res ++ Glob (oswroot ++ [oswdirname]) pattern, out)).

Local Abbreviation pairs :=
  (fun '(oswroot, oswdirnames, _) =>
     map (fun oswdirname : string => (oswroot, oswdirname)) oswdirnames).

(** The inner loop, over the subdirectories of one directory. *)
Lemma inner_loop (pattern : string) (ignoreNames expectFile : list string)
    (oswroot : path) (oswdirnames : list string)
    (res : list Node) (out : list notice) :
  fold_left (round pattern ignoreNames expectFile oswroot) oswdirnames (res, out)
  = (res ++ flat_map (fun v => Glob (fst v ++ [snd v]) pattern)
              (List.filter (keeps fs ignoreNames expectFile)
                 (map (fun d : string => (oswroot, d)) oswdirnames)),
     out ++ flat_map (notice_of fs pattern ignoreNames expectFile)
              (map (fun d : string => (oswroot, d)) oswdirnames)).
Proof.
  revert res out. induction oswdirnames as [|d ds IH]; intros res out.
  - cbn. by rewrite !app_nil_r.
  - cbn [fold_left map List.filter flat_map]. unfold keeps at 1, notice_of at 1, found_in.
    cbn [fst snd].
    destruct (bool_decide (d ∈ ignoreNames)); cbn [negb andb].
    + rewrite IH. by rewrite <- app_assoc.
    + destruct (negb _ && _); cbn [negb].
      * rewrite IH. by rewrite <- app_assoc.
      * rewrite IH. cbn [flat_map fst snd]. by rewrite <- !app_assoc.
Qed.

(** The outer loop, over the triples of the walk. *)
Lemma outer_loop (pattern : string) (ignoreNames expectFile : list string)
    (triples : list (path * list string * list string))
    (res : list Node) (out : list notice) :
  fold_left (fun (st : list Node * list notice) '(oswroot, oswdirnames, _) =>
               fold_left (round pattern ignoreNames expectFile oswroot) oswdirnames st)
    triples (res, out)
  = (res ++ flat_map (fun v => Glob (fst v ++ [snd v]) pattern)
              (List.filter (keeps fs ignoreNames expectFile) (flat_map pairs triples)),
     out ++ flat_map (notice_of fs pattern ignoreNames expectFile)
              (flat_map pairs triples)).
Proof.
  revert res out. induction triples as [|[[r ds] fl] triples IH]; intros res out.
  - cbn. by rewrite !app_nil_r.
  - cbn [fold_left flat_map]. rewrite inner_loop, IH.
    by rewrite List.filter_app, !flat_map_app, <- !app_assoc.
Qed.

(** [recursiveGlob] in closed form: the matches of [root], then the
    matches of the directories of the rounds that pass the two tests, in
    the order of the rounds; one line printed for each other round. *)
Lemma recursiveGlob_rounds (pattern : string) (ignoreNames expectFile : list string) :
  recursiveGlob Glob fs pattern (Some ignoreNames) (ExpectList expectFile)
  = (Glob [] pattern
     ++ flat_map (fun v => Glob (fst v ++ [snd v]) pattern)
          (List.filter (keeps fs ignoreNames expectFile) (visits fs)),
     flat_map (notice_of fs pattern ignoreNames expectFile) (visits fs)).
Proof.
  unfold recursiveGlob, visits. by rewrite outer_loop.
Qed.

Lemma elem_of_kept (ignoreNames expectFile : list string) (v : path * string) :
  v ∈ List.filter (keeps fs ignoreNames expectFile) (visits fs) <->
  v ∈ visits fs /\ keeps fs ignoreNames expectFile v = true.
Proof. rewrite !list_elem_of_In. apply filter_In. Qed.

Lemma notice_printed (pattern : string) (ignoreNames expectFile : list string)
    (v : path * string) (n : notice) :
  v ∈ visits fs ->
  n ∈ notice_of fs pattern ignoreNames expectFile v ->
  n ∈ snd (recursiveGlob Glob fs pattern (Some ignoreNames) (ExpectList expectFile)).
Proof.
  intros Hv Hn. rewrite recursiveGlob_rounds. cbn [snd].
  apply list_elem_of_In, in_flat_map. exists v. by rewrite <- !list_elem_of_In.
Qed.

(** C1, as the code has it. A directory below [root] whose name is in
    [ignoreNames] is skipped: its own matches are never added and the
    notice [directory name is ignored] is printed for it. The walk is not
    pruned there: every directory of the tree, also one below an ignored
    directory, has a round of its own, and its matches are added exactly
    when its own name is not ignored and it has one of the expected files
    (or no file is expected). *)
Theorem ignored_name_skips_the_directory_only
    (pattern : string) (ignoreNames expectFile : list string) :
  let result := recursiveGlob Glob fs pattern (Some ignoreNames) (ExpectList expectFile) in
  let kept := List.filter (keeps fs ignoreNames expectFile) (visits fs) in
  fst result
  = Glob [] pattern ++ flat_map (fun v => Glob (fst v ++ [snd v]) pattern) kept
  /\ (forall r d, d ∈ ignoreNames -> (r, d) ∉ kept)
  /\ (forall r d,
        d ∈ ignoreNames -> (r, d) ∈ visits fs ->
        {| notice_pattern := pattern; notice_path := r ++ [d];
           notice_reason := NameIgnored |} ∈ snd result)
  /\ (forall r d t,
        dir_at fs (r ++ [d]) = Some t ->
        (r, d) ∈ visits fs
        /\ ((r, d) ∈ kept <->
            (d ∉ ignoreNames)
            /\ (expectFile = [] \/ exists fn, fn ∈ expectFile /\ fn ∈ files_of t))).
Proof.
  intros result kept. unfold result, kept. split; [|split; [|split]].
  - by rewrite recursiveGlob_rounds.
  - intros r d Hd [_ Hk]%elem_of_kept. unfold keeps in Hk. cbn [snd] in Hk.
    apply andb_true_iff in Hk as [Hk _]. apply negb_true_iff, bool_decide_eq_false in Hk.
    contradiction.
  - intros r d Hd Hv. apply (notice_printed _ _ _ (r, d)); [done|].
    unfold notice_of. cbn [fst snd]. rewrite bool_decide_eq_true_2 by done.
    apply list_elem_of_here.
  - intros r d t Ht. split; [by apply (every_directory_is_visited _ _ _ t)|].
    rewrite elem_of_kept, (keeps_dir_at _ _ _ _ _ _ Ht). split; [by intros [_ ?]|].
    intros H. split; [by apply (every_directory_is_visited _ _ _ t) | done].
Qed.

(** C7. A directory below [root] whose name is not ignored: when files
    are expected and none of them is among its plain files, its matches are
    not added (and the notice [expected files not found] is printed), yet
    each of its subdirectories has a round of its own, decided on its own
    name and files; when no file is expected, its matches are added. *)
Theorem expected_files_rule_is_per_directory
    (pattern : string) (ignoreNames expectFile : list string)
    (r : path) (d : string) (t : tree) :
  dir_at fs (r ++ [d]) = Some t ->
  d ∉ ignoreNames ->
  let result := recursiveGlob Glob fs pattern (Some ignoreNames) (ExpectList expectFile) in
  let kept := List.filter (keeps fs ignoreNames expectFile) (visits fs) in
  fst result
  = Glob [] pattern ++ flat_map (fun v => Glob (fst v ++ [snd v]) pattern) kept
  /\ (expectFile <> [] ->
      (forall fn, fn ∈ expectFile -> fn ∉ files_of t) ->
      ((r, d) ∉ kept)
      /\ {| notice_pattern := pattern; notice_path := r ++ [d];
            notice_reason := ExpectedNotFound expectFile |} ∈ snd result)
  /\ (forall d' t',
        subdir d' (subdirs_of t) = Some t' ->
        (r ++ [d], d') ∈ visits fs
        /\ ((r ++ [d], d') ∈ kept <->
            (d' ∉ ignoreNames)
            /\ (expectFile = [] \/ exists fn, fn ∈ expectFile /\ fn ∈ files_of t')))
  /\ (expectFile = [] -> (r, d) ∈ kept).
Proof.
  intros Ht Hd result kept. unfold result, kept.
  pose proof (every_directory_is_visited _ _ _ _ Ht) as Hv.
  split; [|split; [|split]].
  - by rewrite recursiveGlob_rounds.
  - intros Hne Hnone.
    assert (Hk : keeps fs ignoreNames expectFile (r, d) = false).
    { apply not_true_iff_false. rewrite (keeps_dir_at _ _ _ _ _ _ Ht).
      intros [_ [->|(fn & Hfn & Hin)]]; [done | by apply (Hnone fn)]. }
    split.
    + rewrite elem_of_kept. intros [_ ?]. congruence.
    + apply (notice_printed _ _ _ (r, d)); [done|].
      unfold notice_of. unfold keeps in Hk. cbn [fst snd] in *.
      rewrite bool_decide_eq_false_2 in * by done. cbn [negb andb] in Hk.
      apply negb_false_iff in Hk. rewrite Hk. apply list_elem_of_here.
  - intros d' t' Hd'.
    assert (Ht' : dir_at fs ((r ++ [d]) ++ [d']) = Some t').
    { apply dir_at_app. eauto. }
    split; [by apply (every_directory_is_visited _ _ _ t')|].
    rewrite elem_of_kept, (keeps_dir_at _ _ _ _ _ _ Ht'). split; [by intros [_ ?]|].
    intros H. split; [by apply (every_directory_is_visited _ _ _ t') | done].
  - intros ->. rewrite elem_of_kept, (keeps_dir_at _ _ _ _ _ _ Ht). auto.
Qed.

(** C10. At the interface, a string for [expectFile] is the list of that
    one string, and [None] for [ignoreNames] or [expectFile] is the default
    list: the result and the lines printed are the same. *)
Theorem argument_spellings (pattern : string) (ignoreNames : option (list string))
    (expectFile : expectFile_arg) (s : string) :
  recursiveGlob Glob fs pattern ignoreNames (ExpectStr s)
  = recursiveGlob Glob fs pattern ignoreNames (ExpectList [s])
  /\ recursiveGlob Glob fs pattern None expectFile
     = recursiveGlob Glob fs pattern (Some ["__pycache__"]) expectFile
  /\ recursiveGlob Glob fs pattern ignoreNames ExpectNone
     = recursiveGlob Glob fs pattern ignoreNames (ExpectList ["__init__.py"]).
Proof. by repeat split. Qed.

End recursiveGlob_props.

(** *** On a concrete tree *)

(** The example tree, walked with the default arguments: the cache
    directory is skipped, the package it holds is not. *)
Example example_walk :
  recursiveGlob (file_glob example_tree) example_tree "*.py" None ExpectNone
  = ([ ["__init__.py"]; ["a.py"];
       ["__pycache__"; "vendored"; "__init__.py"];
       ["__pycache__"; "vendored"; "v.py"];
       ["data"; "sub"; "__init__.py"];
       ["data"; "sub"; "s.py"] ],
     [ {| notice_pattern := "*.py"; notice_path := ["__pycache__"];
          notice_reason := NameIgnored |};
       {| notice_pattern := "*.py"; notice_path := ["data"];
          notice_reason := ExpectedNotFound ["__init__.py"] |} ]).
Proof. vm_compute. reflexivity. Qed.

(** C1 as stated fails: files below the ignored directory [__pycache__]
    are among the matches, because [os.walk] still descends into it and
    the directory [vendored] in it passes both tests. *)
Lemma ignored_directory_is_still_walked :
  ~ Forall (fun m : path => "__pycache__" ∉ m)
      (fst (recursiveGlob (file_glob example_tree) example_tree "*.py" None ExpectNone)).
Proof.
  rewrite example_walk. cbn [fst]. intros H.
  apply Forall_cons in H as [_ H]. apply Forall_cons in H as [_ H].
  apply Forall_cons in H as [H _]. apply H. apply list_elem_of_here.
Qed.

Lemma ignored_name_skips_the_directory_only_witness :
  (([] : path, "__pycache__")
   ∉ List.filter (keeps example_tree ["__pycache__"] ["__init__.py"]) (visits example_tree))
  /\ (["__pycache__"], "vendored")
     ∈ List.filter (keeps example_tree ["__pycache__"] ["__init__.py"]) (visits example_tree).
Proof.
  destruct (ignored_name_skips_the_directory_only (file_glob example_tree) example_tree
              "*.py" ["__pycache__"] ["__init__.py"]) as (_ & Hskip & _ & Hdir).
  split.
  - apply Hskip. apply list_elem_of_here.
  - apply (Hdir ["__pycache__"] "vendored" (Dir ["__init__.py"; "v.py"] []) eq_refl).
    split.
    + intros [[=]|[]%elem_of_nil]%elem_of_cons.
    + right. exists "__init__.py". split; apply list_elem_of_here.
Defined.

Lemma expected_files_rule_is_per_directory_witness :
  (([] : path, "data")
   ∉ List.filter (keeps example_tree ["__pycache__"] ["__init__.py"]) (visits example_tree))
  /\ (["data"], "sub")
     ∈ List.filter (keeps example_tree ["__pycache__"] ["__init__.py"]) (visits example_tree).
Proof.
  destruct (expected_files_rule_is_per_directory (file_glob example_tree) example_tree
              "*.py" ["__pycache__"] ["__init__.py"] [] "data"
              (Dir ["readme.txt"] [("sub", Dir ["__init__.py"; "s.py"] [])]) eq_refl)
    as (_ & Hnone & Hsub & _).
  - intros [[=]|[]%elem_of_nil]%elem_of_cons.
  - split.
    + apply Hnone; [discriminate|].
      intros fn [->|[]%elem_of_nil]%elem_of_cons.
      intros [[=]|[]%elem_of_nil]%elem_of_cons.
    + apply (Hsub "sub" (Dir ["__init__.py"; "s.py"] []) eq_refl). split.
      * intros [[=]|[]%elem_of_nil]%elem_of_cons.
      * right. exists "__init__.py". split; apply list_elem_of_here.
Defined.

Lemma argument_spellings_witness :
  recursiveGlob (file_glob example_tree) example_tree "*.py" None (ExpectStr "__init__.py")
  = recursiveGlob (file_glob example_tree) example_tree "*.py" None (ExpectList ["__init__.py"]).
Proof.
  apply (argument_spellings (file_glob example_tree) example_tree "*.py" None ExpectNone
           "__init__.py").
Defined.

(** ** prolog *)

(** [strip] removes white space at both ends and nothing else. *)
Lemma lstrip_decompose (s : string) :
  exists a, s = a +:+ Py.lstrip s
    /\ Forall (fun c => Py.isspace c = true) (list_ascii_of_string a).
Proof.
  induction s as [|c s (a & Hs & Ha)]; [by exists EmptyString|]. cbn [Py.lstrip].
  destruct (Py.isspace c) eqn:Hc.
  - exists (String c a). split; [|by constructor].
    change (String c s = String c (a +:+ Py.lstrip s)). by rewrite <- Hs.
  - by exists EmptyString.
Qed.

Lemma rstrip_decompose (s : string) :
  exists b, s = Py.rstrip s +:+ b
    /\ Forall (fun c => Py.isspace c = true) (list_ascii_of_string b).
Proof.
  induction s as [|c s (b & Hs & Hb)]; [by exists EmptyString|]. cbn [Py.rstrip].
  destruct (Py.rstrip s) as [|x r] eqn:Hr.
  - destruct (Py.isspace c) eqn:Hc.
    + exists (String c b). split; [|by constructor].
      change (String c s = String c b). by rewrite Hs.
    + exists b. split; [|done]. change (String c s = String c b). by rewrite Hs.
  - exists b. split; [|done].
    change (String c s = String c (String x r +:+ b)). by rewrite <- Hs.
Qed.

Lemma rstrip_rstrip (s : string) : Py.rstrip (Py.rstrip s) = Py.rstrip s.
Proof.
  induction s as [|c s IH]; [done|]. cbn [Py.rstrip].
  destruct (Py.rstrip s) as [|x r] eqn:Hr.
  - destruct (Py.isspace c) eqn:Hc; [done|]. cbn [Py.rstrip]. by rewrite Hc.
  - cbn [Py.rstrip] in *. by rewrite IH.
Qed.

Lemma rstrip_cons (c : ascii) (s : string) :
  Py.isspace c = false -> Py.rstrip (String c s) = String c (Py.rstrip s).
Proof. intros Hc. cbn [Py.rstrip]. destruct (Py.rstrip s); by rewrite ?Hc. Qed.

Lemma lstrip_first (s : string) :
  match Py.lstrip s with
  | EmptyString => True
  | String c _ => Py.isspace c = false
  end.
Proof.
  induction s as [|c s IH]; [done|]. cbn [Py.lstrip].
  by destruct (Py.isspace c) eqn:Hc.
Qed.

Lemma strip_trimmed (s : string) :
  Py.lstrip (Py.strip s) = Py.strip s /\ Py.rstrip (Py.strip s) = Py.strip s.
Proof.
  unfold Py.strip. split; [|apply rstrip_rstrip].
  pose proof (lstrip_first s) as H. destruct (Py.lstrip s) as [|c u]; [done|].
  rewrite (rstrip_cons _ _ H). cbn [Py.lstrip]. by rewrite H.
Qed.

Lemma strip_decompose (s : string) :
  exists a b, s = a +:+ Py.strip s +:+ b
    /\ Forall (fun c => Py.isspace c = true) (list_ascii_of_string a)
    /\ Forall (fun c => Py.isspace c = true) (list_ascii_of_string b).
Proof.
  destruct (lstrip_decompose s) as (a & Hs & Ha).
  destruct (rstrip_decompose (Py.lstrip s)) as (b & Hl & Hb).
  exists a, b. unfold Py.strip. by rewrite <- Hl.
Qed.

Lemma rstrip_last (s u : string) (c : ascii) :
  Py.rstrip s = u +:+ String c EmptyString -> Py.isspace c = false.
Proof.
  revert u. induction s as [|x s IH]; intros u; cbn [Py.rstrip].
  - by destruct u.
  - destruct (Py.rstrip s) as [|y r] eqn:Hr.
    + destruct (Py.isspace x) eqn:Hx; [by destruct u|].
      destruct u as [|x' [|? ?]]; [|discriminate..]. by intros [= <-].
    + destruct u as [|x' u]; [discriminate|]. intros [= _ H]. by apply (IH u).
Qed.

Lemma strip_first (s u : string) (c : ascii) :
  Py.strip s = String c u -> Py.isspace c = false.
Proof.
  unfold Py.strip. pose proof (lstrip_first s) as H.
  destruct (Py.lstrip s) as [|c0 u0]; [discriminate|].
  rewrite (rstrip_cons _ _ H). by intros [= <- _].
Qed.

Lemma strip_last (s u : string) (c : ascii) :
  Py.strip s = u +:+ String c EmptyString -> Py.isspace c = false.
Proof. apply rstrip_last. Qed.

(** C8. When [pyproject.toml] loads: if [VERSION.txt] exists, the version
    is its text without the white space at both ends (the text is white
    space, then the version, then white space, and the version neither
    starts nor ends with a white space character), and the version file is
    [VERSION.txt] itself; if it does not exist and no name of an
    environment variable is given, or the variable is not set, the version
    is [99.99.99] and the version file is a text file [VERSION.txt] that is
    generated with that version. *)
Theorem version_resolution (w : world) (os_environ_version_key : option string)
    (wheel_tag : string) (is_binary : option bool) (project : gmap string string) :
  pyproject_toml w = Some project ->
  exists env version_file,
    prolog w os_environ_version_key wheel_tag is_binary = Some (env, version_file)
    /\ (forall text,
          VERSION_txt w = Some text ->
          PACKAGE_METADATA env !! "version" = Some (Py.strip text)
          /\ Py.lstrip (Py.strip text) = Py.strip text
          /\ Py.rstrip (Py.strip text) = Py.strip text
          /\ version_file = FileList ["VERSION.txt"]
          /\ exists version leading trailing,
               PACKAGE_METADATA env !! "version" = Some version
               /\ text = leading +:+ version +:+ trailing
               /\ Forall (fun c => Py.isspace c = true) (list_ascii_of_string leading)
               /\ Forall (fun c => Py.isspace c = true) (list_ascii_of_string trailing)
               /\ (forall c u, version = String c u -> Py.isspace c = false)
               /\ (forall u c, version = u +:+ String c EmptyString ->
                               Py.isspace c = false))
    /\ (VERSION_txt w = None ->
        os_environ_version_key = None
        \/ (exists key, os_environ_version_key = Some key /\ os_environ w !! key = None) ->
        PACKAGE_METADATA env !! "version" = Some "99.99.99"
        /\ version_file = Textfile "VERSION.txt" "99.99.99").
Proof.
  intros Hp. unfold prolog. rewrite Hp.
  destruct (VERSION_txt w) as [text|] eqn:Hv.
  - eexists _, _. split; [reflexivity|]. split; [|discriminate].
    intros ? [= <-]. cbn [PACKAGE_METADATA]. rewrite lookup_insert_eq.
    destruct (strip_trimmed text) as [Hl Hr].
    destruct (strip_decompose text) as (a & b & Htext & Ha & Hb).
    do 4 (split; [done|]). exists (Py.strip text), a, b.
    do 4 (split; [done|]). split.
    + intros c u. apply strip_first.
    + intros u c. apply strip_last.
  - eexists _, _. split; [reflexivity|]. split; [discriminate|].
    intros _ Hkey. cbn [PACKAGE_METADATA].
    rewrite lookup_total_insert_eq, lookup_insert_eq.
    destruct Hkey as [->|(key & -> & ->)]; by split.
Qed.

Lemma version_resolution_witness :
  (exists env,
     prolog {| pyproject_toml := Some {[ "name" := "pkg" ]};
               VERSION_txt := Some " 1.2.3
";
               os_environ := {[ "PKG_VERSION" := "9.9.9" ]} |}
       (Some "PKG_VERSION") "py3-none-any" None
     = Some (env, FileList ["VERSION.txt"])
     /\ PACKAGE_METADATA env !! "version" = Some "1.2.3")
  /\ (exists env,
        prolog {| pyproject_toml := Some {[ "name" := "pkg" ]};
                  VERSION_txt := None;
                  os_environ := {[ "HOME" := "/root" ]} |}
          (Some "PKG_VERSION") "py3-none-any" None
        = Some (env, Textfile "VERSION.txt" "99.99.99")).
Proof.
  split.
  - destruct (version_resolution
                {| pyproject_toml := Some {[ "name" := "pkg" ]};
                   VERSION_txt := Some " 1.2.3
";
                   os_environ := {[ "PKG_VERSION" := "9.9.9" ]} |}
                (Some "PKG_VERSION") "py3-none-any" None {[ "name" := "pkg" ]} eq_refl)
      as (env & vf & Hrun & Hfile & _).
    destruct (Hfile _ eq_refl) as (Hversion & _ & _ & -> & _).
    by exists env.
  - destruct (version_resolution
                {| pyproject_toml := Some {[ "name" := "pkg" ]};
                   VERSION_txt := None;
                   os_environ := {[ "HOME" := "/root" ]} |}
                (Some "PKG_VERSION") "py3-none-any" None {[ "name" := "pkg" ]} eq_refl)
      as (env & vf & Hrun & _ & Hnone).
    destruct (Hnone eq_refl) as [_ ->].
    + right. exists "PKG_VERSION". split; [done|]. by apply lookup_singleton_ne.
    + by exists env.
Defined.

(** With a version file, and with the variable set. *)
Example version_from_file :
  snd <$> prolog {| pyproject_toml := Some ∅;
                    VERSION_txt := Some " 1.2.3
";
                    os_environ := ∅ |} None "py3-none-any" None
  = Some (FileList ["VERSION.txt"]).
Proof. reflexivity. Qed.

Example strip_example : Py.strip " 1.2.3
" = "1.2.3".
Proof. reflexivity. Qed.

(** * Further properties *)

(** ** generate_requirements, entry by entry *)

Section generate_requirements_more.

Variable Requirement_of : string -> option Requirement.

Lemma parsed_list (depends : list string) :
  Forall (fun d => is_Some (Requirement_of d)) depends ->
  exists reqs, Forall2 (fun d r => Requirement_of d = Some r) depends reqs.
Proof.
  induction 1 as [|d depends [r Hr] _ [reqs IH]].
  - exists []. constructor.
  - exists (r :: reqs). by constructor.
Qed.

Lemma parsed_list_is_Some (depends : list string) (reqs : list Requirement) :
  Forall2 (fun d r => Requirement_of d = Some r) depends reqs ->
  Forall (fun d => is_Some (Requirement_of d)) depends.
Proof. induction 1; constructor; eauto. Qed.

(** One entry whose requirement texts all parse. *)
Lemma entry_returns (key : option string) (depends : list string)
    (reqs : list Requirement) :
  Forall2 (fun d r => Requirement_of d = Some r) depends reqs ->
  generate_requirements Requirement_of [(key, depends)]
  = (entry_records key reqs, inr tt).
Proof.
  intros Hreqs. rewrite generate_requirements_entry, (rounds_returned _ _ _ _ Hreqs).
  unfold entry_records, extra_name, entry_condition, with_condition.
  destruct (Py.split_colon (default EmptyString key)) as [[e c]|]; cbn [fst snd].
  - by destruct (Py.truthy e).
  - by destruct (Py.truthy (default EmptyString key)).
Qed.

Lemma values_of_app (kind : string) (a b : list (string * string)) :
  values_of kind (a ++ b) = values_of kind a ++ values_of kind b.
Proof. unfold values_of. by rewrite List.filter_app, map_app. Qed.

Lemma values_of_requires_dist (kind : string) (f : Requirement -> string)
    (reqs : list Requirement) :
  values_of kind (map (fun r => ("Requires-Dist", f r)) reqs)
  = if String.eqb "Requires-Dist" kind then map f reqs else [].
Proof.
  unfold values_of. induction reqs as [|r reqs IH]; cbn [map List.filter fst].
  - by destruct (String.eqb _ _).
  - destruct (String.eqb "Requires-Dist" kind); cbn [map snd]; by rewrite IH.
Qed.

Lemma entry_records_provides (key : option string) (reqs : list Requirement) :
  values_of "Provides-Extra" (entry_records key reqs)
  = if Py.truthy (extra_name key) then [extra_name key] else [].
Proof.
  unfold entry_records. rewrite values_of_app, values_of_requires_dist.
  by destruct (Py.truthy (extra_name key)).
Qed.

Lemma entry_records_requires (key : option string) (reqs : list Requirement) :
  values_of "Requires-Dist" (entry_records key reqs)
  = map (fun r => Requirement_str (with_condition (entry_condition key) r)) reqs.
Proof.
  unfold entry_records. rewrite values_of_app, values_of_requires_dist.
  by destruct (Py.truthy (extra_name key)).
Qed.

Lemma entry_records_kinds (key : option string) (reqs : list Requirement) :
  Forall (fun record => fst record = "Provides-Extra" \/ fst record = "Requires-Dist")
    (entry_records key reqs).
Proof.
  unfold entry_records. apply Forall_app. split.
  - destruct (Py.truthy (extra_name key)); repeat constructor.
  - apply Forall_map, Forall_true. by right.
Qed.

(** The records of a mapping that returns, sorted by kind: every record is
    a [Provides-Extra] or a [Requires-Dist]; the [Provides-Extra] values are
    the extra names of the keys that are not empty, in the order of the
    mapping and as often as they occur; there is one [Requires-Dist] for
    each requirement text. *)
Theorem records_by_kind (m : list (option string * list string)) :
  Gen.raised (generate_requirements Requirement_of m) = None ->
  let records := Gen.yields (generate_requirements Requirement_of m) in
  Forall (fun record => fst record = "Provides-Extra" \/ fst record = "Requires-Dist")
    records
  /\ values_of "Provides-Extra" records
     = List.filter Py.truthy (map (fun x => extra_name (fst x)) m)
  /\ length (values_of "Requires-Dist" records)
     = length (concat (map snd m)).
Proof.
  induction m as [|[key depends] m IH]; intros Hret.
  - by repeat split.
  - rewrite generate_requirements_cons in Hret |- *.
    destruct (Gen.raised (generate_requirements Requirement_of [(key, depends)]))
      as [e|] eqn:He.
    { by rewrite (raised_bind_raise _ _ _ He) in Hret. }
    apply entry_not_raised, parsed_list in He as [reqs Hreqs].
    pose proof (Forall2_length _ _ _ Hreqs) as Hlen.
    rewrite (entry_returns _ _ _ Hreqs) in Hret |- *.
    rewrite (raised_bind _ _ tt) in Hret by done.
    rewrite (yields_bind _ _ tt) by done. unfold Gen.yields at 1. cbn [fst].
    destruct (IH Hret) as (Hk & Hp & Hr). cbv zeta. split; [|split].
    + apply Forall_app. split; [apply entry_records_kinds | done].
    + rewrite values_of_app, entry_records_provides, Hp. cbn [map List.filter fst].
      by destruct (Py.truthy (extra_name key)).
    + rewrite values_of_app, entry_records_requires, length_app, length_map, Hr.
      cbn [map concat snd]. rewrite length_app. lia.
Qed.

(** The entry of the base requirements (the key [""], [None], or a lone
    colon) yields no [Provides-Extra] and leaves the requirements as they
    were parsed: each one is rendered with the marker it came with. *)
Theorem base_requirements_pass_through (key : option string)
    (depends : list string) (reqs : list Requirement) :
  key = None \/ key = Some EmptyString \/ key = Some ":" ->
  Forall2 (fun d r => Requirement_of d = Some r) depends reqs ->
  generate_requirements Requirement_of [(key, depends)]
  = (map (fun r => ("Requires-Dist", Requirement_str r)) reqs, inr tt).
Proof.
  intros Hkey Hreqs. rewrite (entry_returns _ _ _ Hreqs).
  by destruct Hkey as [->|[->| ->]].
Qed.

(** An entry whose key is a name without a colon yields [Provides-Extra]
    for the name, then each requirement with the marker [extra == 'name'],
    after the marker it came with, in parentheses, when it has one. *)
Theorem named_extra_without_condition (name : string)
    (depends : list string) (reqs : list Requirement) :
  name <> EmptyString ->
  Py.has_char ":" name = false ->
  Forall2 (fun d r => Requirement_of d = Some r) depends reqs ->
  let clause := "extra == '" +:+ name +:+ "'" in
  generate_requirements Requirement_of [(Some name, depends)]
  = (("Provides-Extra", name)
     :: map (fun r => ("Requires-Dist",
                       Requirement_str
                         (set_marker r
                            match marker r with
                            | Some m => "(" +:+ m +:+ ") and " +:+ clause
                            | None => clause
                            end))) reqs,
     inr tt).
Proof.
  intros Hname Hcolon Hreqs clause. rewrite (entry_returns _ _ _ Hreqs).
  apply split_colon_None in Hcolon. apply truthy_true in Hname.
  unfold entry_records, extra_name, entry_condition, with_condition.
  cbn [from_option id]. rewrite Hcolon, Hname. cbn [app].
  do 2 f_equal. apply map_ext. intros r. do 2 f_equal.
  cbn [Py.truthy].
  replace (EmptyString +:+ "extra == '" +:+ name +:+ "'") with clause by done.
  assert (Ht : Py.truthy clause = true) by done. rewrite Ht.
  by destruct (marker r).
Qed.

(** A colon with nothing after it is no condition: the key [name:] gives
    what the key [name] gives, whatever the requirement texts are. *)
Theorem empty_condition_is_no_condition (name : string) (depends : list string) :
  Py.has_char ":" name = false ->
  generate_requirements Requirement_of [(Some (name +:+ ":"), depends)]
  = generate_requirements Requirement_of [(Some name, depends)].
Proof.
  intros Hcolon. rewrite !generate_requirements_entry. cbn [from_option id].
  change (name +:+ ":") with (name +:+ ":" +:+ EmptyString).
  rewrite (split_colon_app _ _ Hcolon).
  apply split_colon_None in Hcolon. by rewrite Hcolon.
Qed.

(** What has been yielded when the generator raises: the records of the
    mapping cut just before the first text that does not parse. The texts
    and the entries after it play no part. *)
Theorem records_before_the_offending_text
    (pre post : list (option string * list string)) (key : option string)
    (l1 l2 : list string) (d : string) :
  Gen.raised (generate_requirements Requirement_of pre) = None ->
  Forall (fun d' => is_Some (Requirement_of d')) l1 ->
  Requirement_of d = None ->
  generate_requirements Requirement_of (pre ++ (key, l1 ++ d :: l2) :: post)
  = (Gen.yields (generate_requirements Requirement_of (pre ++ [(key, l1)])),
     inl (InvalidRequirement d)).
Proof.
  intros Hpre Hl1 Hd. apply raised_None in Hpre as [[] Hpre].
  rewrite (generate_requirements_app _ pre [(key, l1)]), (yields_bind _ _ tt Hpre).
  rewrite generate_requirements_app, generate_requirements_cons.
  destruct (generate_requirements Requirement_of pre) as [ys r]. cbn in Hpre. subst r.
  rewrite !generate_requirements_entry, for_app, for_cons.
  destruct (parsed_list _ Hl1) as [reqs Hreqs].
  rewrite (rounds_returned _ _ _ _ Hreqs). unfold Requirement_new. rewrite Hd.
  destruct (Py.truthy _); cbn; by rewrite ?app_nil_r.
Qed.

(** The generator returns exactly when every requirement text of the
    mapping parses: a parse error is the only way it fails. *)
Theorem returns_iff_all_parse (m : list (option string * list string)) :
  (exists records, Gen.to_list (generate_requirements Requirement_of m) = inr records)
  <-> (forall key depends d,
         (key, depends) ∈ m -> d ∈ depends -> is_Some (Requirement_of d)).
Proof.
  transitivity (Gen.raised (generate_requirements Requirement_of m) = None).
  - rewrite to_list_returned. split; [|eauto].
    intros [records H]. destruct (generate_requirements Requirement_of m) as [ys [e|[]]];
      [discriminate | done].
  - rewrite generate_requirements_returns, Forall_forall. split.
    + intros H key depends d Hk Hd. specialize (H _ Hk). cbn [snd] in H.
      rewrite Forall_forall in H. auto.
    + intros H [key depends] Hk. apply Forall_forall. intros d Hd. eauto.
Qed.

(** Mappings compose: the records of two mappings put one after the other
    are the records of the first followed by those of the second; if the
    first raises, so does the whole, with the same exception. *)
Theorem records_of_concatenation (m1 m2 : list (option string * list string)) :
  (forall l1 l2,
     Gen.to_list (generate_requirements Requirement_of m1) = inr l1 ->
     Gen.to_list (generate_requirements Requirement_of m2) = inr l2 ->
     Gen.to_list (generate_requirements Requirement_of (m1 ++ m2)) = inr (l1 ++ l2))
  /\ (forall e,
        Gen.to_list (generate_requirements Requirement_of m1) = inl e ->
        Gen.to_list (generate_requirements Requirement_of (m1 ++ m2)) = inl e)
  /\ (forall l1 e,
        Gen.to_list (generate_requirements Requirement_of m1) = inr l1 ->
        Gen.to_list (generate_requirements Requirement_of m2) = inl e ->
        Gen.to_list (generate_requirements Requirement_of (m1 ++ m2)) = inl e).
Proof.
  rewrite generate_requirements_app.
  destruct (generate_requirements Requirement_of m1) as [ys [e1|[]]];
    destruct (generate_requirements Requirement_of m2) as [zs [e2|[]]];
    cbn; repeat split; intros; congruence.
Qed.

End generate_requirements_more.

Lemma records_by_kind_witness :
  values_of "Provides-Extra"
    (Gen.yields (generate_requirements example_parser
                   [(Some EmptyString, ["six>=1.10"]);
                    (Some "dev", ["black"]);
                    (Some "dev:sys_platform=='linux'", ["pytest>=6"])]))
  = ["dev"; "dev"].
Proof.
  apply (records_by_kind example_parser
           [(Some EmptyString, ["six>=1.10"]);
            (Some "dev", ["black"]);
            (Some "dev:sys_platform=='linux'", ["pytest>=6"])] eq_refl).
Defined.

Lemma base_requirements_pass_through_witness :
  generate_requirements example_parser [(None, ["pywin32; os_name == 'nt'"; "six>=1.10"])]
  = ([("Requires-Dist", "pywin32; os_name == " +:+ quoted "nt");
      ("Requires-Dist", "six>=1.10")],
     inr tt).
Proof.
  apply (base_requirements_pass_through example_parser None
           ["pywin32; os_name == 'nt'"; "six>=1.10"]
           [pywin32; plain "six" [(">=", "1.10")]]
           (or_introl eq_refl) ltac:(repeat constructor)).
Defined.

Lemma named_extra_without_condition_witness :
  generate_requirements example_parser [(Some "dev", ["black"; "pywin32; os_name == 'nt'"])]
  = ([("Provides-Extra", "dev");
      ("Requires-Dist", "black; extra == 'dev'");
      ("Requires-Dist",
       "pywin32; (os_name == " +:+ quoted "nt" +:+ ") and extra == 'dev'")],
     inr tt).
Proof.
  apply (named_extra_without_condition example_parser "dev"
           ["black"; "pywin32; os_name == 'nt'"]
           [plain "black" []; pywin32]
           ltac:(discriminate) eq_refl ltac:(repeat constructor)).
Defined.

Lemma empty_condition_is_no_condition_witness :
  generate_requirements example_parser [(Some "dev:", ["black"])]
  = generate_requirements example_parser [(Some "dev", ["black"])].
Proof. apply (empty_condition_is_no_condition example_parser "dev" ["black"] eq_refl). Defined.

Lemma records_before_the_offending_text_witness :
  generate_requirements example_parser
    [(Some EmptyString, ["six>=1.10"]);
     (Some "dev", ["black"; "not a requirement"; "pytest>=6"]);
     (Some "test", ["pytest>=6"])]
  = ([("Requires-Dist", "six>=1.10");
      ("Provides-Extra", "dev");
      ("Requires-Dist", "black; extra == 'dev'")],
     inl (InvalidRequirement "not a requirement")).
Proof.
  apply (records_before_the_offending_text example_parser
           [(Some EmptyString, ["six>=1.10"])] [(Some "test", ["pytest>=6"])]
           (Some "dev") ["black"] ["pytest>=6"] "not a requirement"
           eq_refl ltac:(repeat constructor; by eexists) eq_refl).
Defined.

(** ** requires_to_requires_dist, at the edges *)

(** The rendering is empty exactly when there is neither a URL nor a
    specifier; a URL that is the empty string counts as no URL. *)
Theorem render_specifier_empty (r : SpecRequirement) (specs : list (string * string)) :
  (requires_to_requires_dist r = EmptyString
   <-> Py.truthy_opt (sr_url r) = false /\ sr_specs r = [])
  /\ requires_to_requires_dist {| sr_url := Some EmptyString; sr_specs := specs |}
     = requires_to_requires_dist {| sr_url := None; sr_specs := specs |}.
Proof.
  split; [|done]. destruct r as [u specs']. unfold requires_to_requires_dist.
  cbn [sr_url sr_specs]. destruct (Py.truthy_opt u).
  - split; [discriminate | by intros [? _]].
  - destruct specs' as [|[op ver] specs']; [done|].
    split; [discriminate | by intros [_ ?]].
Qed.

(** ** recursiveGlob, round by round *)

Section recursiveGlob_more.

Context {Node : Type}.
Variable Glob : path -> string -> list Node.
Variable fs : tree.

Lemma recursiveGlob_normal (pattern : string) (ignoreNames : option (list string))
    (expectFile : expectFile_arg) :
  recursiveGlob Glob fs pattern ignoreNames expectFile
  = recursiveGlob Glob fs pattern (Some (ignoreNames_of ignoreNames))
      (ExpectList (expectFile_of expectFile)).
Proof. by destruct ignoreNames, expectFile. Qed.

(** [root] is exempt from both tests: whatever the arguments and whatever
    [root] holds, the result starts with the matches of [root]; when
    [root] has no subdirectory, these are the whole result and nothing is
    printed. *)
Theorem root_is_exempt (pattern : string) (ignoreNames : option (list string))
    (expectFile : expectFile_arg) :
  (exists rest,
     fst (recursiveGlob Glob fs pattern ignoreNames expectFile)
     = Glob [] pattern ++ rest)
  /\ (subdirs_of fs = [] ->
      recursiveGlob Glob fs pattern ignoreNames expectFile = (Glob [] pattern, [])).
Proof.
  rewrite recursiveGlob_normal, recursiveGlob_rounds. split; [by eexists|].
  destruct fs as [files subdirs]. cbn [subdirs_of]. intros ->.
  cbn. by rewrite app_nil_r.
Qed.

Lemma notice_of_kept (pattern : string) (ignoreNames expectFile : list string)
    (v : path * string) :
  keeps fs ignoreNames expectFile v = true ->
  notice_of fs pattern ignoreNames expectFile v = [].
Proof.
  unfold keeps, notice_of. destruct (bool_decide _); [done|]. cbn [negb andb].
  by destruct (negb _ && _).
Qed.

Lemma notice_of_skipped (pattern : string) (ignoreNames expectFile : list string)
    (v : path * string) :
  keeps fs ignoreNames expectFile v = false ->
  exists reason,
    notice_of fs pattern ignoreNames expectFile v
    = [{| notice_pattern := pattern; notice_path := fst v ++ [snd v];
          notice_reason := reason |}].
Proof.
  unfold keeps, notice_of. destruct (bool_decide _); [by eexists|]. cbn [negb andb].
  destruct (negb _ && _); [by eexists | done].
Qed.

(** One line is printed for each round that is skipped, in the order of
    the rounds, with the pattern and the path of the directory, and none
    for a round whose matches are added. *)
Theorem one_notice_for_each_skipped_directory
    (pattern : string) (ignoreNames expectFile : list string) :
  let result := recursiveGlob Glob fs pattern (Some ignoreNames) (ExpectList expectFile) in
  map notice_path (snd result)
  = map (fun v => fst v ++ [snd v])
      (List.filter (fun v => negb (keeps fs ignoreNames expectFile v)) (visits fs))
  /\ Forall (fun n => notice_pattern n = pattern) (snd result)
  /\ length (snd result)
     + length (List.filter (keeps fs ignoreNames expectFile) (visits fs))
     = length (visits fs).
Proof.
  cbv zeta. rewrite recursiveGlob_rounds. cbn [snd].
  induction (visits fs) as [|v l (IH1 & IH2 & IH3)]; [done|].
  cbn [flat_map List.filter].
  destruct (keeps fs ignoreNames expectFile v) eqn:Hk; cbn [negb].
  - rewrite (notice_of_kept _ _ _ _ Hk). cbn [app length]. repeat split; [done..|lia].
  - destruct (notice_of_skipped pattern _ _ _ Hk) as [reason ->].
    cbn [app map length notice_path]. repeat split.
    + by rewrite IH1.
    + by constructor.
    + lia.
Qed.

(** Why a directory is skipped: either its name is ignored, or it is not
    and files are expected of which the directory holds none. A name that
    is ignored is given as the reason whatever the directory holds. *)
Theorem reason_of_a_notice (pattern : string) (ignoreNames expectFile : list string)
    (n : notice) :
  n ∈ snd (recursiveGlob Glob fs pattern (Some ignoreNames) (ExpectList expectFile)) ->
  exists r d,
    (r, d) ∈ visits fs
    /\ notice_path n = r ++ [d]
    /\ ((notice_reason n = NameIgnored /\ d ∈ ignoreNames)
        \/ (notice_reason n = ExpectedNotFound expectFile
            /\ (d ∉ ignoreNames)
            /\ expectFile <> []
            /\ forall fn, fn ∈ expectFile -> isfile fs (r ++ [d] ++ [fn]) = false)).
Proof.
  rewrite recursiveGlob_rounds. cbn [snd].
  intros ([r d] & Hv & Hn)%list_elem_of_In%in_flat_map.
  exists r, d. split; [by apply list_elem_of_In|].
  unfold notice_of in Hn. cbn [fst snd] in Hn.
  destruct (bool_decide (d ∈ ignoreNames)) eqn:Hd.
  - destruct Hn as [<-|[]]. split; [done|]. left. split; [done|].
    by apply bool_decide_eq_true in Hd.
  - apply bool_decide_eq_false in Hd.
    destruct (negb _ && _) eqn:Hf; [|done]. destruct Hn as [<-|[]]. split; [done|].
    right. split; [done|]. split; [done|].
    apply andb_true_iff in Hf as [Hf Hl]. apply negb_true_iff in Hf.
    split; [by destruct expectFile|].
    intros fn Hfn. unfold found_in, Py.any in Hf. cbn [fst snd] in Hf.
    destruct (isfile fs (r ++ [d] ++ [fn])) eqn:Hfile; [|done].
    assert (existsb id (map (fun fn => isfile fs (r ++ [d] ++ [fn])) expectFile) = true)
      as Hex; [|congruence].
    apply existsb_exists. exists true. split; [|done].
    apply in_map_iff. exists fn. split; [done | by apply list_elem_of_In].
Qed.

Lemma filter_sublist {A} (p q : A -> bool) (l : list A) :
  (forall x, p x = true -> q x = true) ->
  List.filter p l `sublist_of` List.filter q l.
Proof.
  intros Hpq. induction l as [|x l IH]; [done|]. cbn [List.filter].
  destruct (p x) eqn:Hp.
  - rewrite (Hpq _ Hp). by constructor.
  - destruct (q x); [by constructor | done].
Qed.

Lemma flat_map_sublist {A B} (f : A -> list B) (l1 l2 : list A) :
  l1 `sublist_of` l2 -> flat_map f l1 `sublist_of` flat_map f l2.
Proof.
  induction 1 as [|x l1 l2 _ IH|x l1 l2 _ IH]; cbn [flat_map].
  - done.
  - by apply sublist_app.
  - by apply sublist_inserts_l.
Qed.

Lemma found_in_mono (expectFile expectFile' : list string) (v : path * string) :
  expectFile ⊆ expectFile' ->
  found_in fs expectFile v = true -> found_in fs expectFile' v = true.
Proof.
  intros Hsub. unfold found_in, Py.any. rewrite !existsb_exists.
  intros (b & (fn & <- & Hfn)%in_map_iff & Hb). exists (isfile fs (fst v ++ [snd v] ++ [fn])).
  split; [|done]. apply in_map_iff. exists fn. split; [done|].
  apply list_elem_of_In, Hsub. by apply list_elem_of_In.
Qed.

(** Ignoring more names never adds a match, and expecting one more file
    name, beside those already expected, never removes one: the smaller
    result is the larger one with some matches left out, in the same
    order. *)
Theorem result_is_monotone (pattern : string)
    (ignoreNames ignoreNames' expectFile expectFile' : list string) :
  ignoreNames ⊆ ignoreNames' ->
  expectFile' ⊆ expectFile ->
  expectFile' <> [] ->
  fst (recursiveGlob Glob fs pattern (Some ignoreNames') (ExpectList expectFile'))
  `sublist_of`
  fst (recursiveGlob Glob fs pattern (Some ignoreNames) (ExpectList expectFile)).
Proof.
  intros Hign Hexp Hne. rewrite !recursiveGlob_rounds. cbn [fst].
  apply sublist_app; [done|]. apply flat_map_sublist, filter_sublist.
  intros v. unfold keeps.
  rewrite !andb_true_iff, !negb_true_iff, !andb_false_iff, !negb_false_iff.
  rewrite !bool_decide_eq_false, !Nat.ltb_ge.
  intros [Hd [Hf|Hl]]; split.
  - intros Hin. by apply Hd, Hign.
  - left. by apply (found_in_mono expectFile').
  - intros Hin. by apply Hd, Hign.
  - destruct expectFile'; [done | cbn in Hl; lia].
Qed.

(** With nothing ignored and no file expected, every round adds its
    matches and nothing is printed. *)
Theorem nothing_is_skipped_without_rules (pattern : string) :
  recursiveGlob Glob fs pattern (Some []) (ExpectList [])
  = (Glob [] pattern ++ flat_map (fun v => Glob (fst v ++ [snd v]) pattern) (visits fs),
     []).
Proof.
  rewrite recursiveGlob_rounds.
  assert (Hk : forall v, keeps fs [] [] v = true).
  { intros v. unfold keeps. cbn [length Nat.ltb Nat.leb]. rewrite andb_false_r.
    cbn [negb]. rewrite andb_true_r. apply negb_true_iff, bool_decide_eq_false.
    apply not_elem_of_nil. }
  f_equal.
  - do 2 f_equal. induction (visits fs) as [|v l IH]; [done|].
    cbn [List.filter]. by rewrite Hk, IH.
  - induction (visits fs) as [|v l IH]; [done|].
    cbn [flat_map]. by rewrite (notice_of_kept _ _ _ _ (Hk v)), IH.
Qed.

End recursiveGlob_more.

(** ** The rounds and the directories of the tree *)

Lemma tree_ind_subdirs (P : tree -> Prop) :
  (forall files subdirs, Forall (fun x => P (snd x)) subdirs -> P (Dir files subdirs)) ->
  forall t, P t.
Proof.
  intros H. fix IH 1. intros [files subdirs]. apply H.
  induction subdirs as [|[n t] l IHl]; constructor; [apply IH | exact IHl].
Qed.

Lemma well_formed_Dir (files : list string) (subdirs : list (string * tree)) :
  well_formed (Dir files subdirs)
  <-> NoDup (map fst subdirs) /\ Forall (fun x => well_formed (snd x)) subdirs.
Proof.
  cbn [well_formed]. apply and_iff_compat_l.
  induction subdirs as [|[n t] l IH]; [by split; [constructor|]|].
  rewrite Forall_cons, <- IH. done.
Qed.

Lemma subdir_of_name (n : string) (l : list (string * tree)) :
  n ∈ map fst l -> is_Some (subdir n l).
Proof.
  induction l as [|[m t] l IH]; [by intros ?%elem_of_nil|].
  cbn [map fst subdir]. destruct (String.eqb_spec n m) as [->|Hne]; [by eexists|].
  intros [?|?]%elem_of_cons; [done | auto].
Qed.

Lemma subdir_NoDup (n : string) (t : tree) (l : list (string * tree)) :
  NoDup (map fst l) -> (n, t) ∈ l -> subdir n l = Some t.
Proof.
  induction l as [|[m t'] l IH]; [by intros _ ?%elem_of_nil|].
  cbn [map fst subdir]. intros [Hm Hl]%NoDup_cons [[= -> ->]|Hin]%elem_of_cons.
  - by rewrite String.eqb_refl.
  - destruct (String.eqb_spec n m) as [->|_]; [|auto].
    destruct Hm. apply list_elem_of_In, in_map_iff. exists (m, t).
    split; [done | by apply list_elem_of_In].
Qed.

Lemma visits_from_Dir (top : path) (files : list string) (subdirs : list (string * tree)) :
  visits_from top (Dir files subdirs)
  = map (fun d => (top, d)) (map fst subdirs)
    ++ flat_map (fun x => visits_from (top ++ [fst x]) (snd x)) subdirs.
Proof.
  unfold visits_from. rewrite os_walk_eq. cbn [flat_map]. f_equal.
  induction subdirs as [|x l IH]; [done|]. cbn [flat_map]. by rewrite flat_map_app, IH.
Qed.

(** In a well-formed tree, a round of the walk from [top] is a directory
    of the tree. *)
Lemma visits_from_sound (t : tree) :
  well_formed t ->
  forall top r d,
    (r, d) ∈ visits_from top t ->
    exists p, r = top ++ p /\ is_Some (dir_at t (p ++ [d])).
Proof.
  induction t as [files subdirs IH] using tree_ind_subdirs.
  intros [Hnd Hwf]%well_formed_Dir top r d. rewrite visits_from_Dir.
  intros [Hhere|Hsub]%elem_of_app.
  - apply list_elem_of_In, in_map_iff in Hhere as (d' & [= <- <-] & Hd).
    exists []. split; [by rewrite app_nil_r|]. cbn [app dir_at subdirs_of].
    destruct (subdir_of_name d' subdirs) as [t' Ht']; [by apply list_elem_of_In|].
    rewrite Ht'. by eexists.
  - apply list_elem_of_In, in_flat_map in Hsub as ([n sub] & Hin & Hv).
    apply list_elem_of_In in Hin, Hv. cbn [fst snd] in Hv.
    rewrite Forall_forall in IH, Hwf.
    destruct (IH _ Hin (Hwf _ Hin) _ _ _ Hv) as (p & -> & Hp).
    exists (n :: p). split; [by rewrite <- app_assoc|].
    cbn [app dir_at subdirs_of]. by rewrite (subdir_NoDup _ _ _ Hnd Hin).
Qed.

Lemma visits_eq (fs : tree) : visits fs = visits_from [] fs.
Proof. reflexivity. Qed.

(** In a well-formed tree the rounds of [recursiveGlob] are the
    directories below [root], no more and no less. *)
Theorem rounds_are_the_directories (fs : tree) (r : path) (d : string) :
  well_formed fs ->
  (r, d) ∈ visits fs <-> is_Some (dir_at fs (r ++ [d])).
Proof.
  intros Hwf. split.
  - rewrite visits_eq. intros (p & -> & Hp)%visits_from_sound; done.
  - intros [t Ht]. by apply (every_directory_is_visited _ _ _ t).
Qed.

Lemma NoDup_pairs (top : path) (names : list string) :
  NoDup names -> NoDup (map (fun d => (top, d)) names).
Proof.
  induction 1 as [|d names Hd _ IH]; cbn [map]; constructor; [|done].
  intros (d' & [= <-] & Hin)%list_elem_of_In%in_map_iff. by apply Hd, list_elem_of_In.
Qed.

Lemma visits_from_NoDup (t : tree) :
  well_formed t -> forall top, NoDup (visits_from top t).
Proof.
  induction t as [files subdirs IH] using tree_ind_subdirs.
  intros [Hnd Hwf]%well_formed_Dir top. rewrite visits_from_Dir.
  apply NoDup_app. split; [by apply NoDup_pairs|]. split.
  - intros [r d] (d' & [= <- <-] & _)%list_elem_of_In%in_map_iff.
    intros ([n sub] & Hin & Hv)%list_elem_of_In%in_flat_map.
    apply list_elem_of_In in Hin, Hv. rewrite Forall_forall in Hwf.
    apply (visits_from_sound _ (Hwf _ Hin)) in Hv as (p & Hp & _).
    cbn [fst] in Hp. apply (f_equal length) in Hp.
    rewrite !length_app in Hp. cbn in Hp. lia.
  - induction subdirs as [|[n sub] l IHl]; [constructor|].
    cbn [flat_map fst snd]. cbn [map fst] in Hnd.
    apply NoDup_cons in Hnd as [Hn Hnd].
    apply Forall_cons in IH as [IHsub IH]. apply Forall_cons in Hwf as [Hsub Hwf].
    apply NoDup_app. split; [by apply IHsub|]. split; [|by apply IHl].
    intros [r d] (p & Hp & _)%(visits_from_sound _ Hsub).
    intros ([n' sub'] & Hin & Hv)%list_elem_of_In%in_flat_map.
    apply list_elem_of_In in Hin, Hv. rewrite Forall_forall in Hwf.
    apply (visits_from_sound _ (Hwf _ Hin)) in Hv as (p' & Hp' & _).
    cbn [fst] in Hp'. rewrite Hp, <- !app_assoc in Hp'.
    apply app_inv_head in Hp'. injection Hp' as -> _.
    apply Hn, list_elem_of_In, in_map_iff. exists (n', sub').
    split; [done | by apply list_elem_of_In].
Qed.

(** In a well-formed tree no directory has two rounds: the matches of a
    directory are added at most once. *)
Theorem each_directory_has_one_round (fs : tree) :
  well_formed fs ->
  NoDup (visits fs)
  /\ forall ignoreNames expectFile,
       NoDup (List.filter (keeps fs ignoreNames expectFile) (visits fs)).
Proof.
  intros Hwf. pose proof (visits_from_NoDup _ Hwf []) as Hnd.
  rewrite <- visits_eq in Hnd. split; [done|]. intros ign ef.
  apply NoDup_ListNoDup, List.NoDup_filter. by apply NoDup_ListNoDup.
Qed.

Lemma example_tree_well_formed : well_formed example_tree.
Proof.
  cbn. repeat split; apply NoDup_ListNoDup; repeat constructor; cbn;
    try tauto; by intros [?|[]].
Qed.

Lemma result_is_monotone_witness :
  fst (recursiveGlob (file_glob example_tree) example_tree "*.py"
         (Some ["__pycache__"; "data"]) (ExpectList ["__init__.py"]))
  `sublist_of`
  fst (recursiveGlob (file_glob example_tree) example_tree "*.py"
         (Some ["__pycache__"]) (ExpectList ["__init__.py"; "readme.txt"])).
Proof.
  apply (result_is_monotone (file_glob example_tree) example_tree "*.py"
           ["__pycache__"] ["__pycache__"; "data"]
           ["__init__.py"; "readme.txt"] ["__init__.py"]).
  - intros x Hx. apply elem_of_cons in Hx as [->|[]%elem_of_nil]. apply list_elem_of_here.
  - intros x Hx. apply elem_of_cons in Hx as [->|[]%elem_of_nil]. apply list_elem_of_here.
  - discriminate.
Defined.

Lemma reason_of_a_notice_witness :
  exists r d,
    (r, d) ∈ visits example_tree
    /\ ["data"] = r ++ [d]
    /\ ((ExpectedNotFound ["__init__.py"] = NameIgnored /\ d ∈ ["__pycache__"])
        \/ (ExpectedNotFound ["__init__.py"] = ExpectedNotFound ["__init__.py"]
            /\ (d ∉ ["__pycache__"])
            /\ ["__init__.py"] <> []
            /\ forall fn, fn ∈ ["__init__.py"] ->
                          isfile example_tree (r ++ [d] ++ [fn]) = false)).
Proof.
  apply (reason_of_a_notice (file_glob example_tree) example_tree "*.py"
           ["__pycache__"] ["__init__.py"]
           {| notice_pattern := "*.py"; notice_path := ["data"];
              notice_reason := ExpectedNotFound ["__init__.py"] |}).
  apply list_elem_of_further, list_elem_of_here.
Defined.

Lemma rounds_are_the_directories_witness :
  (["__pycache__"], "vendored") ∈ visits example_tree
  <-> is_Some (dir_at example_tree (["__pycache__"] ++ ["vendored"])).
Proof.
  apply (rounds_are_the_directories example_tree ["__pycache__"] "vendored"
           example_tree_well_formed).
Defined.

Lemma each_directory_has_one_round_witness : NoDup (visits example_tree).
Proof. apply (each_directory_has_one_round example_tree example_tree_well_formed). Defined.

(** ** prolog, the other branches *)

Lemma startswith_spec (s sub : string) :
  Py.startswith s sub = true <-> exists b, s = sub +:+ b.
Proof.
  revert s. induction sub as [|a sub IH]; intros s.
  - split; [exists s; reflexivity | by destruct s].
  - destruct s as [|c s]; cbn [Py.startswith].
    + split; [discriminate | by intros [b ?]].
    + rewrite andb_true_iff, IH, Ascii.eqb_eq. split.
      * intros [-> [b ->]]. by exists b.
      * intros [b [= -> ->]]. eauto.
Qed.

(** [sub in s] holds exactly when [sub] occurs in [s]. *)
Lemma contains_spec (sub s : string) :
  Py.contains sub s = true <-> exists a b, s = a +:+ sub +:+ b.
Proof.
  induction s as [|c s IH].
  - cbn [Py.contains]. rewrite orb_false_r, startswith_spec. split.
    + intros [b ->]. by exists EmptyString, b.
    + intros ([|? a] & b & H); [by exists b | discriminate].
  - cbn [Py.contains]. rewrite orb_true_iff, IH, startswith_spec. split.
    + intros [[b ->]|(a & b & ->)]; [by exists EmptyString, b|].
      by exists (String c a), b.
    + intros ([|c' a] & b & H); [left; by exists b|].
      right. injection H as -> ->. by exists a, b.
Qed.

Section prolog_more.

Variable w : world.
Variable project : gmap string string.
Hypothesis Hproject : pyproject_toml w = Some project.

(** Without a version file, a variable that is named and set gives the
    version, also when its value is the empty string; the version file is
    generated with that value. *)
Theorem version_from_the_environment (key value wheel_tag : string)
    (is_binary : option bool) :
  VERSION_txt w = None ->
  os_environ w !! key = Some value ->
  exists env,
    prolog w (Some key) wheel_tag is_binary = Some (env, Textfile "VERSION.txt" value)
    /\ PACKAGE_METADATA env !! "version" = Some value.
Proof.
  intros Hv Hkey. unfold prolog. rewrite Hproject, Hv, Hkey. cbn [default from_option id].
  eexists. rewrite lookup_total_insert_eq. split; [done|]. apply lookup_insert_eq.
Qed.

(** What [prolog] returns, whichever branch it takes: the project table
    with its [version] entry replaced and nothing else changed, the wheel
    tag as given, and a version file that is [VERSION.txt], either the
    existing file or a text file generated with the version of the
    metadata. *)
Theorem metadata_and_version_file_agree (os_environ_version_key : option string)
    (wheel_tag : string) (is_binary : option bool) :
  exists env version_file,
    prolog w os_environ_version_key wheel_tag is_binary = Some (env, version_file)
    /\ (forall k, k <> "version" -> PACKAGE_METADATA env !! k = project !! k)
    /\ is_Some (PACKAGE_METADATA env !! "version")
    /\ WHEEL_TAG env = wheel_tag
    /\ match version_file with
       | FileList l => l = ["VERSION.txt"] /\ is_Some (VERSION_txt w)
       | Textfile target source =>
           target = "VERSION.txt"
           /\ PACKAGE_METADATA env !! "version" = Some source
           /\ VERSION_txt w = None
       end.
Proof.
  unfold prolog. rewrite Hproject. destruct (VERSION_txt w) as [text|].
  - eexists _, _. split; [reflexivity|]. cbn [PACKAGE_METADATA WHEEL_TAG].
    split; [intros k Hk; by apply lookup_insert_ne|].
    split; [by rewrite lookup_insert_eq|]. by repeat split.
  - eexists _, _. split; [reflexivity|]. cbn [PACKAGE_METADATA WHEEL_TAG].
    split; [intros k Hk; by apply lookup_insert_ne|].
    split; [by rewrite lookup_insert_eq|]. split; [done|].
    rewrite lookup_total_insert_eq, lookup_insert_eq. by repeat split.
Qed.

(** The wheel target: [is_binary], when it is given, decides alone;
    otherwise the wheel is pure exactly when [-none-any] occurs in the
    tag. *)
Theorem wheel_target (os_environ_version_key : option string) (wheel_tag : string)
    (is_binary : option bool) :
  exists env version_file,
    prolog w os_environ_version_key wheel_tag is_binary = Some (env, version_file)
    /\ (WHEEL_TARGET env = "purelib" \/ WHEEL_TARGET env = "platlib")
    /\ (forall b, is_binary = Some b -> (WHEEL_TARGET env = "platlib" <-> b = true))
    /\ (is_binary = None ->
        (WHEEL_TARGET env = "purelib"
         <-> exists a b, wheel_tag = a +:+ "-none-any" +:+ b)).
Proof.
  unfold prolog. rewrite Hproject.
  destruct (VERSION_txt w) as [text|]; eexists _, _; (split; [reflexivity|]);
    cbn [WHEEL_TARGET]; rewrite <- contains_spec;
    destruct is_binary as [[]|]; try destruct (Py.contains "-none-any" wheel_tag);
    cbn [negb]; repeat split; intros; auto; try discriminate; try congruence.
Qed.

End prolog_more.

(** A version file wins over the environment: with the same project table
    and the same [VERSION.txt], the metadata (the version in it), the tag,
    the target and the version file do not depend on the name of the
    variable nor on the environment; the environment shows in [ENV], its
    copy, and nowhere else. *)
Theorem version_file_wins (w w' : world) (project : gmap string string)
    (key key' : option string) (text wheel_tag : string) (is_binary : option bool) :
  pyproject_toml w = Some project ->
  pyproject_toml w' = Some project ->
  VERSION_txt w = Some text ->
  VERSION_txt w' = Some text ->
  exists env env',
    prolog w key wheel_tag is_binary = Some (env, FileList ["VERSION.txt"])
    /\ prolog w' key' wheel_tag is_binary = Some (env', FileList ["VERSION.txt"])
    /\ PACKAGE_METADATA env = PACKAGE_METADATA env'
    /\ WHEEL_TAG env = WHEEL_TAG env'
    /\ WHEEL_TARGET env = WHEEL_TARGET env'
    /\ tools env = tools env'
    /\ ENV env = os_environ w
    /\ ENV env' = os_environ w'.
Proof.
  intros Hp Hp' Hv Hv'. unfold prolog. rewrite Hp, Hp', Hv, Hv'.
  eexists _, _. by repeat split.
Qed.

(** *** On concrete inputs *)

Lemma version_from_the_environment_witness :
  exists env,
    prolog {| pyproject_toml := Some {[ "name" := "pkg" ]};
              VERSION_txt := None;
              os_environ := {[ "PKG_VERSION" := "2.0.1" ]} |}
      (Some "PKG_VERSION") "cp39-abi3-linux_x86_64" None
    = Some (env, Textfile "VERSION.txt" "2.0.1")
    /\ PACKAGE_METADATA env !! "version" = Some "2.0.1".
Proof.
  apply (version_from_the_environment
           {| pyproject_toml := Some {[ "name" := "pkg" ]};
              VERSION_txt := None;
              os_environ := {[ "PKG_VERSION" := "2.0.1" ]} |}
           {[ "name" := "pkg" ]} eq_refl "PKG_VERSION" "2.0.1"
           "cp39-abi3-linux_x86_64" None eq_refl).
  apply lookup_singleton_eq.
Defined.

Lemma metadata_and_version_file_agree_witness :
  exists env version_file,
    prolog {| pyproject_toml := Some {[ "name" := "pkg"; "version" := "0.0.0" ]};
              VERSION_txt := Some "1.2.3";
              os_environ := ∅ |} None "py3-none-any" None
    = Some (env, version_file)
    /\ PACKAGE_METADATA env !! "name" = Some "pkg"
    /\ version_file = FileList ["VERSION.txt"].
Proof.
  destruct (metadata_and_version_file_agree
              {| pyproject_toml := Some {[ "name" := "pkg"; "version" := "0.0.0" ]};
                 VERSION_txt := Some "1.2.3";
                 os_environ := ∅ |}
              {[ "name" := "pkg"; "version" := "0.0.0" ]} eq_refl None "py3-none-any" None)
    as (env & vf & Hrun & Hkeep & _ & _ & Hvf).
  exists env, vf. split; [exact Hrun|]. split.
  - rewrite Hkeep by discriminate. reflexivity.
  - cbn in Hrun. injection Hrun as _ <-. reflexivity.
Defined.

Lemma wheel_target_witness :
  exists env version_file,
    prolog {| pyproject_toml := Some ∅; VERSION_txt := None; os_environ := ∅ |}
      None "py2.py3-none-any" None
    = Some (env, version_file)
    /\ WHEEL_TARGET env = "purelib".
Proof.
  destruct (wheel_target
              {| pyproject_toml := Some ∅; VERSION_txt := None; os_environ := ∅ |}
              ∅ eq_refl None "py2.py3-none-any" None)
    as (env & vf & Hrun & _ & _ & Hpure).
  exists env, vf. split; [exact Hrun|]. apply (Hpure eq_refl).
  exists "py2.py3", EmptyString. reflexivity.
Defined.

Lemma version_file_wins_witness :
  exists env env',
    prolog {| pyproject_toml := Some ∅; VERSION_txt := Some "1.2.3";
              os_environ := {[ "PKG_VERSION" := "9.9.9" ]} |}
      (Some "PKG_VERSION") "py3-none-any" None
    = Some (env, FileList ["VERSION.txt"])
    /\ prolog {| pyproject_toml := Some ∅; VERSION_txt := Some "1.2.3"; os_environ := ∅ |}
         None "py3-none-any" None
       = Some (env', FileList ["VERSION.txt"])
    /\ PACKAGE_METADATA env = PACKAGE_METADATA env'.
Proof.
  destruct (version_file_wins
              {| pyproject_toml := Some ∅; VERSION_txt := Some "1.2.3";
                 os_environ := {[ "PKG_VERSION" := "9.9.9" ]} |}
              {| pyproject_toml := Some ∅; VERSION_txt := Some "1.2.3"; os_environ := ∅ |}
              ∅ (Some "PKG_VERSION") None "1.2.3" "py3-none-any" None
              eq_refl eq_refl eq_refl eq_refl)
    as (env & env' & H & H' & Hm & _).
  exists env, env'. by repeat split.
Defined.

Lemma returns_iff_all_parse_witness :
  exists records,
    Gen.to_list (generate_requirements example_parser
                   [(Some EmptyString, ["six>=1.10"]); (Some "dev", ["black"])])
    = inr records.
Proof.
  apply (returns_iff_all_parse example_parser
           [(Some EmptyString, ["six>=1.10"]); (Some "dev", ["black"])]).
  intros key depends d Hk Hd.
  apply elem_of_cons in Hk as [[= -> ->]|Hk];
    [|apply elem_of_cons in Hk as [[= -> ->]|[]%elem_of_nil]];
    apply elem_of_cons in Hd as [->|[]%elem_of_nil]; by eexists.
Defined.

Lemma records_of_concatenation_witness :
  Gen.to_list (generate_requirements example_parser
                 ([(Some EmptyString, ["six>=1.10"])] ++ [(Some "dev", ["black"])]))
  = inr ([("Requires-Dist", "six>=1.10")]
         ++ [("Provides-Extra", "dev"); ("Requires-Dist", "black; extra == 'dev'")]).
Proof.
  apply (records_of_concatenation example_parser
           [(Some EmptyString, ["six>=1.10"])] [(Some "dev", ["black"])]);
    reflexivity.
Defined.

Lemma render_specifier_empty_witness :
  requires_to_requires_dist {| sr_url := Some EmptyString; sr_specs := [] |} = EmptyString.
Proof.
  apply (proj1 (render_specifier_empty
                  {| sr_url := Some EmptyString; sr_specs := [] |} [])).
  split; reflexivity.
Defined.

Lemma root_is_exempt_witness :
  recursiveGlob (file_glob (Dir ["a.py"; "b.txt"] [])) (Dir ["a.py"; "b.txt"] []) "*.py"
    (Some ["a.py"]) (ExpectStr "missing")
  = ([["a.py"]], []).
Proof.
  apply (root_is_exempt (file_glob (Dir ["a.py"; "b.txt"] [])) (Dir ["a.py"; "b.txt"] [])
           "*.py" (Some ["a.py"]) (ExpectStr "missing")).
  reflexivity.
Defined.

Lemma one_notice_for_each_skipped_directory_witness :
  map notice_path
    (snd (recursiveGlob (file_glob example_tree) example_tree "*.py"
            (Some ["__pycache__"]) (ExpectList ["__init__.py"])))
  = [["__pycache__"]; ["data"]].
Proof.
  apply (one_notice_for_each_skipped_directory (file_glob example_tree) example_tree
           "*.py" ["__pycache__"] ["__init__.py"]).
Defined.

Lemma nothing_is_skipped_without_rules_witness :
  snd (recursiveGlob (file_glob example_tree) example_tree "*.py"
         (Some []) (ExpectList [])) = [].
Proof.
  rewrite (nothing_is_skipped_without_rules (file_glob example_tree) example_tree "*.py").
  reflexivity.
Defined.

(** ** generate_requirements, when a text does not parse *)

Section generate_requirements_failure.

Variable Requirement_of : string -> option Requirement.

Lemma first_offending_in_list (depends : list string) :
  Forall (fun d => is_Some (Requirement_of d)) depends
  \/ exists l1 d l2,
       depends = l1 ++ d :: l2
       /\ Forall (fun d' => is_Some (Requirement_of d')) l1
       /\ Requirement_of d = None.
Proof.
  induction depends as [|d depends [IH|(l1 & d' & l2 & -> & Hl1 & Hd')]].
  - left. constructor.
  - destruct (Requirement_of d) as [r|] eqn:Hd.
    + left. constructor; [by eexists | done].
    + right. exists [], d, depends. by repeat split.
  - destruct (Requirement_of d) as [r|] eqn:Hd.
    + right. exists (d :: l1), d', l2. repeat split; [|done].
      constructor; [by eexists | done].
    + right. exists [], d, (l1 ++ d' :: l2). by repeat split.
Qed.

Lemma first_offending_text (m : list (option string * list string)) :
  (exists key depends d,
      (key, depends) ∈ m /\ d ∈ depends /\ Requirement_of d = None) ->
  exists pre key l1 d l2 post,
    m = pre ++ (key, l1 ++ d :: l2) :: post
    /\ Forall (fun x => Forall (fun d' => is_Some (Requirement_of d')) (snd x)) pre
    /\ Forall (fun d' => is_Some (Requirement_of d')) l1
    /\ Requirement_of d = None.
Proof.
  induction m as [|[key depends] m IH]; intros (k & ds & d & Hk & Hd & Hnone).
  - by apply elem_of_nil in Hk.
  - destruct (first_offending_in_list depends) as [Hall|(l1 & d' & l2 & -> & Hl1 & Hd')].
    + destruct IH as (pre & k' & l1 & d' & l2 & post & -> & Hpre & Hl1 & Hd').
      * apply elem_of_cons in Hk as [[= -> ->]|Hk]; [|eauto 6].
        rewrite Forall_forall in Hall. destruct (Hall _ Hd) as [r Hr]. congruence.
      * exists ((key, depends) :: pre), k', l1, d', l2, post.
        repeat split; [|done..]. by constructor.
    + exists [], key, l1, d', l2, m. by repeat split.
Qed.

(** The trace of the generator when the first text that does not parse is
    [d]. *)
Lemma trace_up_to_the_offending_text
    (pre post : list (option string * list string)) (key : option string)
    (l1 l2 : list string) (d : string) :
  Forall (fun x => Forall (fun d' => is_Some (Requirement_of d')) (snd x)) pre ->
  Forall (fun d' => is_Some (Requirement_of d')) l1 ->
  Requirement_of d = None ->
  generate_requirements Requirement_of (pre ++ (key, l1 ++ d :: l2) :: post)
  = (Gen.yields (generate_requirements Requirement_of (pre ++ [(key, l1)])),
     inl (InvalidRequirement d)).
Proof.
  intros Hpre%generate_requirements_returns Hl1 Hd.
  apply raised_None in Hpre as [[] Hpre].
  rewrite (generate_requirements_app _ pre [(key, l1)]), (yields_bind _ _ tt Hpre).
  rewrite generate_requirements_app, generate_requirements_cons.
  destruct (generate_requirements Requirement_of pre) as [ys r]. cbn in Hpre. subst r.
  rewrite !generate_requirements_entry, for_app, for_cons.
  destruct (parsed_list _ _ Hl1) as [reqs Hreqs].
  rewrite (rounds_returned _ _ _ _ Hreqs). unfold Requirement_new. rewrite Hd.
  destruct (Py.truthy _); cbn; by rewrite ?app_nil_r.
Qed.

(** C4, as the code has it. When a requirement text of the mapping is not
    a valid requirement, the generator never returns: it raises
    [InvalidRequirement] for the first such text, nothing catches it, and
    a caller that collects the records receives the exception and no list.
    The generator is lazy, though: before it raises it has yielded the
    records of the mapping up to that text, which are the complete records
    of the mapping cut there. *)
Theorem invalid_requirement_ends_the_records (m : list (option string * list string)) :
  (exists key depends d,
      (key, depends) ∈ m /\ d ∈ depends /\ Requirement_of d = None) ->
  exists pre key l1 d l2 post,
    m = pre ++ (key, l1 ++ d :: l2) :: post
    /\ Requirement_of d = None
    /\ Gen.raised (generate_requirements Requirement_of m) = Some (InvalidRequirement d)
    /\ Gen.to_list (generate_requirements Requirement_of m) = inl (InvalidRequirement d)
    /\ (forall records,
          Gen.to_list (generate_requirements Requirement_of m) <> inr records)
    /\ Gen.yields (generate_requirements Requirement_of m)
       = Gen.yields (generate_requirements Requirement_of (pre ++ [(key, l1)]))
    /\ Gen.to_list (generate_requirements Requirement_of (pre ++ [(key, l1)]))
       = inr (Gen.yields (generate_requirements Requirement_of (pre ++ [(key, l1)]))).
Proof.
  intros (pre & key & l1 & d & l2 & post & -> & Hpre & Hl1 & Hd)%first_offending_text.
  exists pre, key, l1, d, l2, post.
  rewrite (trace_up_to_the_offending_text _ _ _ _ _ _ Hpre Hl1 Hd).
  do 5 (split; [done|]). split; [done|].
  apply to_list_returned, generate_requirements_returns.
  apply Forall_app. split; [done|]. by repeat constructor.
Qed.

End generate_requirements_failure.

Lemma invalid_requirement_ends_the_records_witness :
  exists pre key l1 d l2 post,
    [(Some EmptyString, ["six>=1.10"]);
     (Some "dev", ["black"; "not a requirement"; "pytest>=6"]);
     (Some "test", ["pytest>=6"])]
    = pre ++ (key, l1 ++ d :: l2) :: post
    /\ Gen.to_list (generate_requirements example_parser
                      [(Some EmptyString, ["six>=1.10"]);
                       (Some "dev", ["black"; "not a requirement"; "pytest>=6"]);
                       (Some "test", ["pytest>=6"])])
       = inl (InvalidRequirement d).
Proof.
  destruct (invalid_requirement_ends_the_records example_parser
              [(Some EmptyString, ["six>=1.10"]);
               (Some "dev", ["black"; "not a requirement"; "pytest>=6"]);
               (Some "test", ["pytest>=6"])])
    as (pre & key & l1 & d & l2 & post & Hm & _ & _ & Hlist & _).
  - exists (Some "dev"), ["black"; "not a requirement"; "pytest>=6"], "not a requirement".
    split; [apply list_elem_of_further, list_elem_of_here|].
    split; [apply list_elem_of_further, list_elem_of_here | reflexivity].
  - exists pre, key, l1, d, l2, post. by split.
Defined.

(** C4 as stated fails: the mapping below holds a text that does not
    parse, the generator raises for it, and yet the records of [six] and
    [black] and the [Provides-Extra] of [dev] have been handed to the
    consumer before. *)
Lemma records_are_delivered_before_the_exception :
  ~ (Gen.raised (generate_requirements example_parser
                   [(Some EmptyString, ["six>=1.10"]);
                    (Some "dev", ["black"; "not a requirement"; "pytest>=6"])])
     <> None ->
     Gen.yields (generate_requirements example_parser
                   [(Some EmptyString, ["six>=1.10"]);
                    (Some "dev", ["black"; "not a requirement"; "pytest>=6"])])
     = []).
Proof. intros H. by discriminate H. Qed.
